(** * The [useSlider] drag/touch carousel hook

    A shallow embedding of the slider hook of the web front-end
    (the [useSlider] function with its handlers and effects) and the
    properties its specification states about it.

    Numbers.  The hook computes with JavaScript numbers.  Pixel offsets,
    widths and pointer coordinates are modelled here as rationals ([Q]),
    so [BOUNCE_FACTOR] is the exact fraction 3/10 and all arithmetic is
    exact; comparisons ([>], [<], [!==], [Object.is] on dependencies) are
    the semantic ones on [Q].  The index handed to [handleScrollToIndex]
    comes from the caller and can be any [number], [NaN] and the
    infinities included.

    React.  A handler is a closure over the values of one render: it reads
    the state of that render and queues its [set...] calls; refs are
    mutated at once.  Every handler below therefore takes the rendered
    state [s], reads state from [s] only, and returns the state after the
    queued updates.  [commit] then replays what React does after a
    handler: it re-renders when a state value changed and runs the effects
    whose dependencies changed.  The caller's [isDragging] and
    [setIsDragging] are taken to be a [useState] pair of the caller.

    The environment.  Of the window only the list of registered listeners
    is kept, of [setTimeout] the list of pending callbacks; a pending
    callback may fire between any two handler calls. *)

From Stdlib Require Import String ZArith QArith Qround Lqa Bool List Lia.
Import ListNotations.
Open Scope Q_scope.

(** ** Numbers *)

(** JS [a > b], [a < b], [a >= b] and [a !== b] on numbers. *)
Definition gt (a b : Q) : bool :=
  match a ?= b with Gt => true | _ => false end.

Definition lt (a b : Q) : bool :=
  match a ?= b with Lt => true | _ => false end.

Definition ge (a b : Q) : bool :=
  match a ?= b with Lt => false | _ => true end.

Definition strict_neq (a b : Q) : bool := negb (Qeq_bool a b).

(** [const BOUNCE_FACTOR = 0.3] *)
Definition BOUNCE_FACTOR : Q := 3 # 10.

(** A [number] handed in by the caller, as [handleScrollToIndex]'s index
    is: besides the finite values it can be either infinity or [NaN].  A
    rational stands for the finite number it is. *)
Inductive number :=
| finite (q : Q)
| Infinity
| NegInfinity
| NaN.

Coercion finite : Q >-> number.

(** JS [a < b] and [a >= b] with a finite [b]: every comparison with
    [NaN] is false. *)
Definition number_lt (a : number) (b : Q) : bool :=
  match a with
  | finite q => lt q b
  | NegInfinity => true
  | Infinity | NaN => false
  end.

Definition number_ge (a : number) (b : Q) : bool :=
  match a with
  | finite q => ge q b
  | Infinity => true
  | NegInfinity | NaN => false
  end.

(** ** The DOM the hook touches *)

(** [style.transition] is a string; [style.transform] is either untouched
    or [translate3d(x px, 0, 0)], kept as its [x]. *)
Record Style := {
  transition : string;
  transform : option Q
}.

(** The track element: the [getBoundingClientRect().width] of each child,
    in document order, the element's [offsetWidth] and its inline style. *)
Record Element := {
  children : list Q;
  offsetWidth : Q;
  style : Style
}.

Definition ease_out : string := "transform 0.3s ease-out".

Definition set_transition (v : string) (el : Element) : Element :=
  {| children := children el; offsetWidth := offsetWidth el;
     style := {| transition := v; transform := transform (style el) |} |}.

Definition set_transform (x : Q) (el : Element) : Element :=
  {| children := children el; offsetWidth := offsetWidth el;
     style := {| transition := transition (style el); transform := Some x |} |}.

(** What the handlers ask of [e.target]: [closest('.layout-key')],
    [trackRef.current.contains(e.target)], [closest('#multi-modal-bg')]
    and [closest('#multi-modal-inner-bg')]. *)
Record Target := {
  in_layout_key : bool;
  in_track : bool;
  in_multi_modal_bg : bool;
  in_multi_modal_inner_bg : bool
}.

(** A mouse event has [clientX]; a touch event has [touches], each with a
    [clientX]. *)
Inductive Pointer :=
| MousePointer (clientX : Q)
| TouchPointer (touches : list Q).

Record PointerEvent := {
  pointer : Pointer;
  target : Target
}.

(** ['clientX' in e ? e.clientX : e.touches[0].clientX]; reading
    [touches[0].clientX] of an empty touch list is a [TypeError]. *)
Definition clientX_of (e : PointerEvent) : option Q :=
  match pointer e with
  | MousePointer x => Some x
  | TouchPointer (x :: _) => Some x
  | TouchPointer [] => None
  end.

(** ** The window and its timers *)

Inductive WindowEvent := mousemove | mouseup | touchmove | touchend.

Inductive Handler := OnMoveTouchMove | OnUpTouchEnd.

Definition Listener : Type := WindowEvent * Handler.

Definition WindowEvent_eqb (a b : WindowEvent) : bool :=
  match a, b with
  | mousemove, mousemove | mouseup, mouseup
  | touchmove, touchmove | touchend, touchend => true
  | _, _ => false
  end.

Definition Handler_eqb (a b : Handler) : bool :=
  match a, b with
  | OnMoveTouchMove, OnMoveTouchMove | OnUpTouchEnd, OnUpTouchEnd => true
  | _, _ => false
  end.

Definition Listener_eqb (a b : Listener) : bool :=
  WindowEvent_eqb (fst a) (fst b) && Handler_eqb (snd a) (snd b).

(** [window.addEventListener]: a listener already registered for the same
    event is not registered twice. *)
Definition addEventListener (ev : WindowEvent) (h : Handler)
    (w : list Listener) : list Listener :=
  if existsb (Listener_eqb (ev, h)) w then w else w ++ [(ev, h)].

Definition removeEventListener (ev : WindowEvent) (h : Handler)
    (w : list Listener) : list Listener :=
  filter (fun l => negb (Listener_eqb (ev, h) l)) w.

(** The two callbacks the hook hands to [setTimeout]. *)
Inductive TimerCallback := ClearTransition | StopDragging.

Record Timer := {
  callback : TimerCallback;
  delay : nat
}.

(** ** The state of one mounted slider *)

(** The values the callbacks and effects depend on, as of one render. *)
Record Deps := {
  dep_current : Q;
  dep_prev : Q;
  dep_max : Q;
  dep_dragging : bool
}.

Record Slider := {
  (* useState *)
  currentTranslate : Q;
  prevTranslate : Q;
  maxTranslate : Q;
  (* props: the caller's flag, changed through setIsDragging, and gap *)
  isDragging : bool;
  gap : Q;
  (* useRef *)
  trackRef : option Element;
  isMouseDownRef : bool;
  diffRef : Q;
  startPosRef : Q;
  isInputClickRef : bool;
  (* the environment *)
  windowListeners : list Listener;
  timers : list Timer;
  rendered : Deps;
  dispatched : nat
}.

Definition setCurrentTranslate (v : Q) (s : Slider) : Slider :=
  {| currentTranslate := v; prevTranslate := prevTranslate s;
     maxTranslate := maxTranslate s; isDragging := isDragging s;
     gap := gap s; trackRef := trackRef s;
     isMouseDownRef := isMouseDownRef s; diffRef := diffRef s;
     startPosRef := startPosRef s; isInputClickRef := isInputClickRef s;
     windowListeners := windowListeners s; timers := timers s;
     rendered := rendered s; dispatched := dispatched s |}.

Definition setPrevTranslate (v : Q) (s : Slider) : Slider :=
  {| currentTranslate := currentTranslate s; prevTranslate := v;
     maxTranslate := maxTranslate s; isDragging := isDragging s;
     gap := gap s; trackRef := trackRef s;
     isMouseDownRef := isMouseDownRef s; diffRef := diffRef s;
     startPosRef := startPosRef s; isInputClickRef := isInputClickRef s;
     windowListeners := windowListeners s; timers := timers s;
     rendered := rendered s; dispatched := dispatched s |}.

Definition setMaxTranslate (v : Q) (s : Slider) : Slider :=
  {| currentTranslate := currentTranslate s;
     prevTranslate := prevTranslate s;
     maxTranslate := v; isDragging := isDragging s;
     gap := gap s; trackRef := trackRef s;
     isMouseDownRef := isMouseDownRef s; diffRef := diffRef s;
     startPosRef := startPosRef s; isInputClickRef := isInputClickRef s;
     windowListeners := windowListeners s; timers := timers s;
     rendered := rendered s; dispatched := dispatched s |}.

Definition setIsDragging (v : bool) (s : Slider) : Slider :=
  {| currentTranslate := currentTranslate s;
     prevTranslate := prevTranslate s;
     maxTranslate := maxTranslate s; isDragging := v;
     gap := gap s; trackRef := trackRef s;
     isMouseDownRef := isMouseDownRef s; diffRef := diffRef s;
     startPosRef := startPosRef s; isInputClickRef := isInputClickRef s;
     windowListeners := windowListeners s; timers := timers s;
     rendered := rendered s; dispatched := dispatched s |}.

Definition set_trackRef (v : option Element) (s : Slider) : Slider :=
  {| currentTranslate := currentTranslate s;
     prevTranslate := prevTranslate s;
     maxTranslate := maxTranslate s; isDragging := isDragging s;
     gap := gap s; trackRef := v;
     isMouseDownRef := isMouseDownRef s; diffRef := diffRef s;
     startPosRef := startPosRef s; isInputClickRef := isInputClickRef s;
     windowListeners := windowListeners s; timers := timers s;
     rendered := rendered s; dispatched := dispatched s |}.

Definition set_isMouseDownRef (v : bool) (s : Slider) : Slider :=
  {| currentTranslate := currentTranslate s;
     prevTranslate := prevTranslate s;
     maxTranslate := maxTranslate s; isDragging := isDragging s;
     gap := gap s; trackRef := trackRef s;
     isMouseDownRef := v; diffRef := diffRef s;
     startPosRef := startPosRef s; isInputClickRef := isInputClickRef s;
     windowListeners := windowListeners s; timers := timers s;
     rendered := rendered s; dispatched := dispatched s |}.

Definition set_diffRef (v : Q) (s : Slider) : Slider :=
  {| currentTranslate := currentTranslate s;
     prevTranslate := prevTranslate s;
     maxTranslate := maxTranslate s; isDragging := isDragging s;
     gap := gap s; trackRef := trackRef s;
     isMouseDownRef := isMouseDownRef s; diffRef := v;
     startPosRef := startPosRef s; isInputClickRef := isInputClickRef s;
     windowListeners := windowListeners s; timers := timers s;
     rendered := rendered s; dispatched := dispatched s |}.

Definition set_startPosRef (v : Q) (s : Slider) : Slider :=
  {| currentTranslate := currentTranslate s;
     prevTranslate := prevTranslate s;
     maxTranslate := maxTranslate s; isDragging := isDragging s;
     gap := gap s; trackRef := trackRef s;
     isMouseDownRef := isMouseDownRef s; diffRef := diffRef s;
     startPosRef := v; isInputClickRef := isInputClickRef s;
     windowListeners := windowListeners s; timers := timers s;
     rendered := rendered s; dispatched := dispatched s |}.

Definition set_isInputClickRef (v : bool) (s : Slider) : Slider :=
  {| currentTranslate := currentTranslate s;
     prevTranslate := prevTranslate s;
     maxTranslate := maxTranslate s; isDragging := isDragging s;
     gap := gap s; trackRef := trackRef s;
     isMouseDownRef := isMouseDownRef s; diffRef := diffRef s;
     startPosRef := startPosRef s; isInputClickRef := v;
     windowListeners := windowListeners s; timers := timers s;
     rendered := rendered s; dispatched := dispatched s |}.

Definition set_windowListeners (v : list Listener) (s : Slider) : Slider :=
  {| currentTranslate := currentTranslate s;
     prevTranslate := prevTranslate s;
     maxTranslate := maxTranslate s; isDragging := isDragging s;
     gap := gap s; trackRef := trackRef s;
     isMouseDownRef := isMouseDownRef s; diffRef := diffRef s;
     startPosRef := startPosRef s; isInputClickRef := isInputClickRef s;
     windowListeners := v; timers := timers s;
     rendered := rendered s; dispatched := dispatched s |}.

Definition set_timers (v : list Timer) (s : Slider) : Slider :=
  {| currentTranslate := currentTranslate s;
     prevTranslate := prevTranslate s;
     maxTranslate := maxTranslate s; isDragging := isDragging s;
     gap := gap s; trackRef := trackRef s;
     isMouseDownRef := isMouseDownRef s; diffRef := diffRef s;
     startPosRef := startPosRef s; isInputClickRef := isInputClickRef s;
     windowListeners := windowListeners s; timers := v;
     rendered := rendered s; dispatched := dispatched s |}.

Definition set_rendered (v : Deps) (s : Slider) : Slider :=
  {| currentTranslate := currentTranslate s;
     prevTranslate := prevTranslate s;
     maxTranslate := maxTranslate s; isDragging := isDragging s;
     gap := gap s; trackRef := trackRef s;
     isMouseDownRef := isMouseDownRef s; diffRef := diffRef s;
     startPosRef := startPosRef s; isInputClickRef := isInputClickRef s;
     windowListeners := windowListeners s; timers := timers s;
     rendered := v; dispatched := dispatched s |}.

Definition set_dispatched (v : nat) (s : Slider) : Slider :=
  {| currentTranslate := currentTranslate s;
     prevTranslate := prevTranslate s;
     maxTranslate := maxTranslate s; isDragging := isDragging s;
     gap := gap s; trackRef := trackRef s;
     isMouseDownRef := isMouseDownRef s; diffRef := diffRef s;
     startPosRef := startPosRef s; isInputClickRef := isInputClickRef s;
     windowListeners := windowListeners s; timers := timers s;
     rendered := rendered s; dispatched := v |}.

(** [setTimeout(cb, ms)] *)
Definition setTimeout (cb : TimerCallback) (ms : nat) (s : Slider) : Slider :=
  set_timers (timers s ++ [{| callback := cb; delay := ms |}]) s.

(** A handler either returns or throws; the mutations made before a throw
    stay. *)
Inductive Outcome :=
| Returned (s : Slider)
| Threw (s : Slider).

Definition after (o : Outcome) : Slider :=
  match o with Returned s | Threw s => s end.


(** ** The handlers of [useSlider] *)

(** [calculateDiff]: [diffRef.current = currentPosition - startPosRef.current] *)
Definition calculateDiff (s : Slider) (e : PointerEvent) : Outcome :=
  match clientX_of e with
  | Some currentPosition =>
      Returned (set_diffRef (currentPosition - startPosRef s) s)
  | None => Threw s
  end.

(** [translate]: the offset of the previous render's [prevTranslate] moved
    by [diffRef.current], damped beyond either end. *)
Definition translate (s : Slider) : Slider :=
  match trackRef s with
  | None => s
  | Some _ =>
      let nextTranslate := prevTranslate s + diffRef s in
      let nextTranslate :=
        if gt nextTranslate 0 then nextTranslate * BOUNCE_FACTOR
        else if lt nextTranslate (maxTranslate s)
        then maxTranslate s + (nextTranslate - maxTranslate s) * BOUNCE_FACTOR
        else nextTranslate in
      setCurrentTranslate nextTranslate s
  end.

Definition handleMouseDownTouchStart (s : Slider) (e : PointerEvent)
    : Outcome :=
  let s := set_isMouseDownRef true s in
  match clientX_of e with
  | Some x => Returned (set_startPosRef x s)
  | None => Threw s
  end.

Definition handleMouseMoveTouchMove (s : Slider) (e : PointerEvent)
    : Outcome :=
  match trackRef s with
  | None => Returned s
  | Some _ =>
      match calculateDiff s e with
      | Threw s => Threw s
      | Returned s =>
          if isMouseDownRef s && strict_neq (diffRef s) 0
          then Returned (translate (setIsDragging true s))
          else Returned s
      end
  end.

Definition handleMouseUpTouchEnd (s : Slider) (e : PointerEvent) : Slider :=
  let currentTranslate := currentTranslate s in
  let maxTranslate := maxTranslate s in
  let s := set_isMouseDownRef false s in
  let s :=
    if negb (isDragging s) && in_layout_key (target e)
    then set_isInputClickRef true s
    else set_isInputClickRef false s in
  match trackRef s with
  | None => s
  | Some el =>
      let s :=
        if gt currentTranslate 0 then setCurrentTranslate 0 s
        else if lt currentTranslate maxTranslate
        then setCurrentTranslate maxTranslate s
        else s in
      let s := set_trackRef (Some (set_transition ease_out el)) s in
      let s := setTimeout ClearTransition 300 s in
      if in_track (target e)
      then setPrevTranslate currentTranslate (setIsDragging false s)
      else if in_multi_modal_bg (target e)
              || in_multi_modal_inner_bg (target e)
      then setPrevTranslate currentTranslate s
      else setPrevTranslate currentTranslate (setTimeout StopDragging 0 s)
  end.

(** [handleInputClick(setState, option)] returns a callback.  Running the
    callback is modelled by the list of [setState] calls it makes, each
    named by the [option] it merges into the previous state. *)
Definition handleInputClick {O : Type} (s : Slider) (option : O) : list O :=
  if isDragging s then []
  else if isInputClickRef s then [option] else [].

(** [ToIntegerOrInfinity] on a finite number: truncation towards zero. *)
Definition truncate (q : Q) : Z :=
  if Qle_bool 0 q then Qfloor q else Qceiling q.

(** [Array.prototype.slice(0, end)] *)
Definition slice0 {A : Type} (l : list A) (e : Q) : list A :=
  let len := Z.of_nat (length l) in
  let relativeEnd := truncate e in
  let final :=
    if (relativeEnd <? 0)%Z then Z.max (len + relativeEnd) 0
    else Z.min relativeEnd len in
  firstn (Z.to_nat final) l.

(** [slice(0, end)] for any [number]: [ToIntegerOrInfinity] takes [NaN]
    to 0 and leaves the infinities, which [slice] clamps to the ends. *)
Definition slice_to {A : Type} (l : list A) (e : number) : list A :=
  match e with
  | finite q => slice0 l q
  | Infinity => l
  | NegInfinity | NaN => []
  end.

Definition length_of {A : Type} (l : list A) : Q :=
  inject_Z (Z.of_nat (length l)).

Definition handleScrollToIndex (s : Slider) (index : number) : Slider :=
  match trackRef s with
  | None => s
  | Some el =>
      let slides := children el in
      if Qeq_bool (length_of slides) 0
         || number_lt index 0 || number_ge index (length_of slides)
      then s
      else
        let gapWidth := gap s in
        let translateX :=
          fold_left (fun acc width => acc - (width + gapWidth))
                    (slice_to slides index) 0 in
        let s := setCurrentTranslate translateX s in
        let s := setPrevTranslate translateX s in
        let el := set_transition ease_out el in
        let el := set_transform translateX el in
        let s := set_trackRef (Some el) s in
        setTimeout ClearTransition 300 s
  end.

(** The body of a timer callback. *)
Definition run_callback (cb : TimerCallback) (s : Slider) : Slider :=
  match cb with
  | ClearTransition =>
      match trackRef s with
      | None => s
      | Some el => set_trackRef (Some (set_transition EmptyString el)) s
      end
  | StopDragging => setIsDragging false s
  end.

Fixpoint drop_nth {A : Type} (k : nat) (l : list A) : list A :=
  match l, k with
  | [], _ => []
  | _ :: l, O => l
  | x :: l, S k => x :: drop_nth k l
  end.

(** The [k]-th pending timer fires (nothing happens when there is none). *)
Definition fire (k : nat) (s : Slider) : Slider :=
  match nth_error (timers s) k with
  | None => s
  | Some t => run_callback (callback t) (set_timers (drop_nth k (timers s)) s)
  end.

(** ** The effects of [useSlider] *)

(** [useEffect(..., [currentTranslate])] *)
Definition transformEffect (s : Slider) : Slider :=
  match trackRef s with
  | Some el => set_trackRef (Some (set_transform (currentTranslate s) el)) s
  | None => s
  end.

(** [useEffect(..., [isDragging, handleMouseMoveTouchMove,
    handleMouseUpTouchEnd])]: its body and its cleanup. *)
Definition listenerEffect (s : Slider) : Slider :=
  if isDragging s
  then
    let w := windowListeners s in
    let w := addEventListener mousemove OnMoveTouchMove w in
    let w := addEventListener mouseup OnUpTouchEnd w in
    let w := addEventListener touchmove OnMoveTouchMove w in
    let w := addEventListener touchend OnUpTouchEnd w in
    set_windowListeners w s
  else s.

Definition listenerCleanup (s : Slider) : Slider :=
  let w := windowListeners s in
  let w := removeEventListener mousemove OnMoveTouchMove w in
  let w := removeEventListener mouseup OnUpTouchEnd w in
  let w := removeEventListener touchmove OnMoveTouchMove w in
  let w := removeEventListener touchend OnUpTouchEnd w in
  set_windowListeners w s.

(** [useEffect(..., [])]: measures the track. *)
Definition maxTranslateEffect (s : Slider) : Slider :=
  match trackRef s with
  | Some el =>
      let slides := children el in
      if gt (length_of slides) 0
      then
        let tracksWidth :=
          fold_left (fun acc slideWidth => acc + slideWidth) slides 0 in
        let gapWidth := gap s * (length_of slides - 1) in
        let containerWidth := offsetWidth el in
        setMaxTranslate (- (tracksWidth + gapWidth - containerWidth)) s
      else s
  | None => s
  end.

(** ** Rendering *)

Definition deps_of (s : Slider) : Deps :=
  {| dep_current := currentTranslate s; dep_prev := prevTranslate s;
     dep_max := maxTranslate s; dep_dragging := isDragging s |}.

(** [Object.is] on every dependency. *)
Definition same_deps (a b : Deps) : bool :=
  Qeq_bool (dep_current a) (dep_current b)
  && Qeq_bool (dep_prev a) (dep_prev b)
  && Qeq_bool (dep_max a) (dep_max b)
  && Bool.eqb (dep_dragging a) (dep_dragging b).

(** After a handler: when no state value changed React does not render
    again.  Otherwise the callbacks are rebuilt: [translate] and
    [handleMouseMoveTouchMove] change with [maxTranslate] and
    [prevTranslate], [handleMouseUpTouchEnd] with those, [currentTranslate]
    and [isDragging].  So the listener effect is cleaned up and run again
    whenever any of the four changed, and the transform effect when
    [currentTranslate] did; the measuring effect has no dependencies and
    never runs again. *)
Definition commit (s : Slider) : Slider :=
  if same_deps (deps_of s) (rendered s) then s
  else
    let s1 :=
      if Qeq_bool (currentTranslate s) (dep_current (rendered s)) then s
      else transformEffect s in
    set_rendered (deps_of s) (listenerEffect (listenerCleanup s1)).

Record UseSliderProps := {
  props_isDragging : bool;
  props_gap : option Q
}.

(** [gap = 16] *)
Definition gap_of (p : UseSliderProps) : Q :=
  match props_gap p with Some g => g | None => 16 end.

(** The first render: state and refs at their initial values, the track
    ref attached to the element (if the caller rendered one), then the
    three effects in order, then the render that [setMaxTranslate]
    asks for. *)
Definition useSlider (p : UseSliderProps) (el : option Element) : Slider :=
  let s :=
    {| currentTranslate := 0; prevTranslate := 0; maxTranslate := 0;
       isDragging := props_isDragging p; gap := gap_of p;
       trackRef := el;
       isMouseDownRef := false; diffRef := 0; startPosRef := 0;
       isInputClickRef := false;
       windowListeners := []; timers := [];
       rendered := {| dep_current := 0; dep_prev := 0; dep_max := 0;
                      dep_dragging := props_isDragging p |};
       dispatched := 0 |} in
  commit (maxTranslateEffect (listenerEffect (transformEffect s))).

(** Unmounting runs the cleanup of the listener effect and detaches the
    ref. *)
Definition unmount (s : Slider) : Slider :=
  set_trackRef None (listenerCleanup s).

(** ** Runs *)

(** What can happen to a mounted slider: the three pointer handlers are
    called with an event, the callback made by [handleInputClick] is
    called, [handleScrollToIndex] is called, or a pending timer fires. *)
Inductive Action :=
| PointerDown (e : PointerEvent)
| PointerMove (e : PointerEvent)
| PointerUp (e : PointerEvent)
| InputClick
| ScrollToIndex (index : number)
| TimerFires (k : nat).

Definition handle (s : Slider) (a : Action) : Slider :=
  match a with
  | PointerDown e => after (handleMouseDownTouchStart s e)
  | PointerMove e => after (handleMouseMoveTouchMove s e)
  | PointerUp e => handleMouseUpTouchEnd s e
  | InputClick =>
      set_dispatched (dispatched s + length (handleInputClick s tt)) s
  | ScrollToIndex index => handleScrollToIndex s index
  | TimerFires k => fire k s
  end.

Definition step (s : Slider) (a : Action) : Slider := commit (handle s a).

Definition run (s : Slider) (l : list Action) : Slider := fold_left step l s.

(** * The [CloseIcon] component *)

(** A value a prop can hold: a string, or anything else (a handler, a
    style object), named by a number. *)
Inductive PropValue :=
| Text (s : string)
| Opaque (id : nat).

(** A props object, as the sequence of the assignments that built it: a
    later assignment to a key overrides an earlier one, and a key never
    assigned is [undefined]. *)
Definition PropsObject : Type := list (string * PropValue).

Fixpoint get (key : string) (o : PropsObject) : option PropValue :=
  match o with
  | [] => None
  | (k, v) :: o =>
      match get key o with
      | Some v' => Some v'
      | None => if String.eqb key k then Some v else None
      end
  end.

(** The rest of an object after the named keys are taken out of it. *)
Definition omit (keys : list string) (o : PropsObject) : PropsObject :=
  filter (fun kv => negb (existsb (String.eqb (fst kv)) keys)) o.

(** An element: its type, its props as the sequence of assignments made
    by the attributes in the order they are written (a spread contributes
    the assignments of its object), and its children.  What React does
    with the reserved props [key] and [ref] is not modelled. *)
#[warnings="-register-all"]
Inductive JsxElement :=
| jsx (type : string) (attributes : PropsObject) (kids : list JsxElement).

Definition attributes_of (el : JsxElement) : PropsObject :=
  match el with jsx _ attributes _ => attributes end.

Definition kids_of (el : JsxElement) : list JsxElement :=
  match el with jsx _ _ kids => kids end.

(** An element written with children between its tags: they are its
    children, and a [children] attribute, written or spread, is
    dropped. *)
Definition jsx_with_children (type : string) (attributes : PropsObject)
    (kids : list JsxElement) : JsxElement :=
  jsx type (omit ["children"%string] attributes) kids.

(** [function CloseIcon({ className, color = 'currentColor', ...rest })]:
    the attributes in the order they are written, [className] when it is
    defined, then [{...rest}]; the two lines are written as children. *)
Definition CloseIcon (props : PropsObject) : JsxElement :=
  let className := get "className" props in
  let color :=
    match get "color" props with
    | Some v => v
    | None => Text "currentColor"
    end in
  let rest := omit ["className"%string; "color"%string] props in
  jsx_with_children "svg"
    ([("width"%string, Text "24");
      ("height"%string, Text "24");
      ("viewBox"%string, Text "0 0 24 24");
      ("fill"%string, Text "none");
      ("xmlns"%string, Text "http://www.w3.org/2000/svg");
      ("stroke"%string, color);
      ("strokeWidth"%string, Text "2");
      ("strokeLinecap"%string, Text "round");
      ("strokeLinejoin"%string, Text "round")]
     ++ match className with
        | Some v => [("className"%string, v)]
        | None => []
        end
     ++ rest)
    [jsx "line"
       [("x1"%string, Text "18"); ("y1"%string, Text "6");
        ("x2"%string, Text "6"); ("y2"%string, Text "18")] [];
     jsx "line"
       [("x1"%string, Text "6"); ("y1"%string, Text "6");
        ("x2"%string, Text "18"); ("y2"%string, Text "18")] []].

(** * Vocabulary of the properties *)

(** ** Views of the state *)

(** [trackRef.current] is not null. *)
Definition mounted (s : Slider) : bool :=
  match trackRef s with Some _ => true | None => false end.

(** The translation state: the three [useState] numbers. *)
Definition translations (s : Slider) : Q * Q * Q :=
  (currentTranslate s, prevTranslate s, maxTranslate s).

Definition Qsum (l : list Q) : Q := fold_right Qplus 0 l.

(** The offset [handleMouseUpTouchEnd] settles on. *)
Definition clamp (s : Slider) : Q :=
  if gt (currentTranslate s) 0 then 0
  else if lt (currentTranslate s) (maxTranslate s) then maxTranslate s
  else currentTranslate s.

(** The offset [translate] renders for a tentative offset. *)
Definition damped (s : Slider) (nextTranslate : Q) : Q :=
  if gt nextTranslate 0 then nextTranslate * BOUNCE_FACTOR
  else if lt nextTranslate (maxTranslate s)
  then maxTranslate s + (nextTranslate - maxTranslate s) * BOUNCE_FACTOR
  else nextTranslate.

(** ** Gestures *)

(** A gesture: pointer-down, any number of moves, release. *)
Definition gesture (e0 : PointerEvent) (ms : list PointerEvent)
    (eu : PointerEvent) : list Action :=
  PointerDown e0 :: map PointerMove ms ++ [PointerUp eu].

(** A move event that reports an X other than the starting X [x0]. *)
Definition moved_from (x0 : Q) (m : PointerEvent) : Prop :=
  exists x, clientX_of m = Some x /\ ~ x == x0.

(** The part of the state a pointer-move cannot change. *)
Record held (s : Slider) (x0 : Q) : Prop := {
  held_mounted : mounted s = true;
  held_down : isMouseDownRef s = true;
  held_start : startPosRef s = x0
}.

(** What can come between a pointer-down and the release: moves, and
    pending timers that fire. *)
Definition between_press_and_release (a : Action) : Prop :=
  match a with
  | PointerMove _ | TimerFires _ => True
  | _ => False
  end.

(** The same, with no move that reports an X other than [x0]. *)
Definition stays_at (x0 : Q) (a : Action) : Prop :=
  match a with
  | PointerMove m => ~ moved_from x0 m
  | TimerFires _ => True
  | _ => False
  end.

(** The zero-delay timer that a release outside the track and outside
    the multi-modal backdrops starts. *)
Definition stop_timer : Timer := {| callback := StopDragging; delay := 0 |}.

(** The [k]-th pending timer is one that clears the dragging flag. *)
Definition fires_stop (s : Slider) (k : nat) : bool :=
  match nth_error (timers s) k with
  | Some {| callback := StopDragging |} => true
  | _ => false
  end.

(** Running [l] from [s]: only moves and timers, and no timer that fires
    clears the dragging flag. *)
Fixpoint keeps_dragging (s : Slider) (l : list Action) : Prop :=
  match l with
  | [] => True
  | a :: l =>
      match a with
      | PointerMove _ => True
      | TimerFires k => fires_stop s k = false
      | _ => False
      end
      /\ keeps_dragging (step s a) l
  end.

(** No timer that clears the dragging flag is pending. *)
Definition no_stop_pending (s : Slider) : Prop :=
  Forall (fun t => callback t = ClearTransition) (timers s).

(** ** The window while dragging *)

Definition dragListeners : list Listener :=
  [(mousemove, OnMoveTouchMove); (mouseup, OnUpTouchEnd);
   (touchmove, OnMoveTouchMove); (touchend, OnUpTouchEnd)].

Definition listenersFor (dragging : bool) : list Listener :=
  if dragging then dragListeners else [].

(** What holds between two handler calls: the window has the four
    listeners exactly when the flag is set, and the flag is the one the
    listener effect last ran with. *)
Record listening (s : Slider) : Prop := {
  listening_window : windowListeners s = listenersFor (isDragging s);
  listening_rendered : dep_dragging (rendered s) = isDragging s
}.

(** ** Concrete sliders and events *)

Definition default_props : UseSliderProps :=
  {| props_isDragging := false; props_gap := None |}.

(** A track before the hook has touched its style. *)
Definition track (widths : list Q) (container : Q) : Element :=
  {| children := widths; offsetWidth := container;
     style := {| transition := EmptyString; transform := None |} |}.

(** A slide inside the track. *)
Definition on_track : Target :=
  {| in_layout_key := false; in_track := true;
     in_multi_modal_bg := false; in_multi_modal_inner_bg := false |}.

(** An input-like child ([.layout-key]) inside the track. *)
Definition on_layout_key : Target :=
  {| in_layout_key := true; in_track := true;
     in_multi_modal_bg := false; in_multi_modal_inner_bg := false |}.

(** The backdrop of a multi-modal ([#multi-modal-bg]), outside the track. *)
Definition on_backdrop : Target :=
  {| in_layout_key := false; in_track := false;
     in_multi_modal_bg := true; in_multi_modal_inner_bg := false |}.

(** Anywhere else in the document. *)
Definition elsewhere : Target :=
  {| in_layout_key := false; in_track := false;
     in_multi_modal_bg := false; in_multi_modal_inner_bg := false |}.

Definition mouse (x : Q) (t : Target) : PointerEvent :=
  {| pointer := MousePointer x; target := t |}.

(** One slide of 500px in a 300px container: [maxTranslate] is -200. *)
Definition wide : Slider := useSlider default_props (Some (track [500] 300)).

(** One slide of 100px in a 300px container: [maxTranslate] is +200. *)
Definition narrow : Slider :=
  useSlider default_props (Some (track [100] 300)).

(** Three slides of 200px, 16px apart, in a 300px container. *)
Definition three : Slider :=
  useSlider default_props (Some (track [200; 200; 200] 300)).

(** ** Indices *)

(** [index < 0 || index >= n] as the index is a number: true of a finite
    index outside [0, n) and of both infinities, false of [NaN]. *)
Definition below_or_beyond (index : number) (n : Q) : Prop :=
  match index with
  | finite q => q < 0 \/ n <= q
  | Infinity | NegInfinity => True
  | NaN => False
  end.

(** ** The track as the hook sees it *)

(** [trackRef.current.children], by width; none without a track. *)
Definition slides (s : Slider) : list Q :=
  match trackRef s with Some el => children el | None => [] end.

(** The [translateX] that [handleScrollToIndex] computes for [index]. *)
Definition scroll_target (s : Slider) (index : Q) : Q :=
  fold_left (fun acc width => acc - (width + gap s))
            (slice0 (slides s) index) 0.

(** The inline transform shows an offset equal to [currentTranslate]. *)
Definition shows_offset (s : Slider) : Prop :=
  match trackRef s with
  | Some el => exists x, transform (style el) = Some x
                         /\ x == currentTranslate s
  | None => True
  end.

(** Between two handler calls the transform shows the offset, and the
    transform effect last ran with that offset. *)
Record painted (s : Slider) : Prop := {
  painted_transform : shows_offset s;
  painted_rendered : dep_current (rendered s) == currentTranslate s
}.

(** After a handler and before the render it asks for: the transform
    shows the offset of the last render or already the new one. *)
Definition repaintable (s : Slider) : Prop :=
  match trackRef s with
  | Some el => exists x, transform (style el) = Some x
                         /\ (x == dep_current (rendered s)
                             \/ x == currentTranslate s)
  | None => True
  end.

(** The timer that [handleMouseUpTouchEnd] and [handleScrollToIndex]
    start to clear the transition. *)
Definition clear_timer : Timer :=
  {| callback := ClearTransition; delay := 300 |}.

(** The inline transition is empty, or it is the ease-out transition and
    a timer that clears it is pending. *)
Definition transition_settles (s : Slider) : Prop :=
  match trackRef s with
  | Some el =>
      transition (style el) = EmptyString
      \/ (transition (style el) = ease_out /\ In clear_timer (timers s))
  | None => True
  end.

(** ** Proof automation *)

(** Case analysis on [commit]: no render, or a render with or without the
    transform effect. *)
Ltac unfold_commit :=
  intros;
  match goal with
  | |- context [commit ?s] =>
      unfold commit, mounted;
      destruct (same_deps (deps_of s) (rendered s)); [reflexivity|];
      destruct (Qeq_bool (currentTranslate s) (dep_current (rendered s)));
      unfold transformEffect, listenerEffect, listenerCleanup;
      destruct s as [? ? ? dragging ? track ? ? ? ? ? ? ? ?]; cbn;
      destruct track; cbn; destruct dragging; reflexivity
  end.

Ltac simple_condition b :=
  lazymatch b with
  | context [if _ then _ else _] => fail
  | context [match _ with _ => _ end] => fail
  | _ => idtac
  end.

(** Case analysis on every branch of a handler, innermost test first. *)
Ltac break_conditions :=
  repeat (cbn;
          match goal with
          | |- context [match ?x with _ => _ end] => is_var x; destruct x
          | |- context [if ?b then _ else _] =>
              simple_condition b; destruct b
          | |- context [match ?x with Some _ => _ | None => _ end] =>
              simple_condition x; destruct x
          end).

Ltac unfold_handlers :=
  unfold handle, handleMouseDownTouchStart, handleMouseMoveTouchMove,
    handleMouseUpTouchEnd, handleScrollToIndex, handleInputClick, fire,
    run_callback, calculateDiff, translate, clientX_of, setTimeout, after,
    number_lt, number_ge, slice_to.

(** A field that no branch of a handler writes. *)
Ltac frame :=
  intros;
  repeat match goal with
         | s : Slider |- _ => destruct s
         | e : PointerEvent |- _ => destruct e
         | a : Action |- _ => destruct a
         end;
  unfold_handlers; unfold mounted, translations in *; cbn in *;
  subst; break_conditions; try reflexivity; try discriminate.

(** Closed comparisons of rationals, by evaluation. *)
Ltac decide_Q :=
  repeat match goal with
         | |- _ /\ _ => split
         | |- ~ _ => let H := fresh in intro H; vm_compute in H; discriminate
         | |- _ <= _ => apply Qle_bool_imp_le; vm_compute; reflexivity
         | |- _ < _ => vm_compute; reflexivity
         | |- _ == _ => vm_compute; reflexivity
         | |- _ = _ => vm_compute; reflexivity
         end.

(** * Properties *)

(** ** Comparisons *)

Lemma gt_true (a b : Q) : gt a b = true <-> b < a.
Proof.
  unfold gt. destruct (Qcompare_spec a b); split; intro; try congruence; lra.
Qed.

Lemma lt_true (a b : Q) : lt a b = true <-> a < b.
Proof.
  unfold lt. destruct (Qcompare_spec a b); split; intro; try congruence; lra.
Qed.

Lemma ge_true (a b : Q) : ge a b = true <-> b <= a.
Proof.
  unfold ge. destruct (Qcompare_spec a b); split; intro; try congruence; lra.
Qed.

Lemma gt_false (a b : Q) : gt a b = false <-> a <= b.
Proof.
  unfold gt. destruct (Qcompare_spec a b); split; intro; try congruence; lra.
Qed.

Lemma lt_false (a b : Q) : lt a b = false <-> b <= a.
Proof.
  unfold lt. destruct (Qcompare_spec a b); split; intro; try congruence; lra.
Qed.

Lemma strict_neq_true (a b : Q) : strict_neq a b = true <-> ~ a == b.
Proof.
  unfold strict_neq. rewrite negb_true_iff.
  split.
  - intros H E. apply Qeq_bool_iff in E. congruence.
  - intro H. destruct (Qeq_bool a b) eqn:E; [|reflexivity].
    apply Qeq_bool_iff in E. contradiction.
Qed.

Lemma strict_neq_false (a b : Q) : strict_neq a b = false <-> a == b.
Proof.
  unfold strict_neq. rewrite negb_false_iff. apply Qeq_bool_iff.
Qed.

(** ** What rendering leaves alone *)

Lemma commit_currentTranslate s :
  currentTranslate (commit s) = currentTranslate s.
Proof. unfold_commit. Qed.

Lemma commit_prevTranslate s : prevTranslate (commit s) = prevTranslate s.
Proof. unfold_commit. Qed.

Lemma commit_maxTranslate s : maxTranslate (commit s) = maxTranslate s.
Proof. unfold_commit. Qed.

Lemma commit_isDragging s : isDragging (commit s) = isDragging s.
Proof. unfold_commit. Qed.

Lemma commit_gap s : gap (commit s) = gap s.
Proof. unfold_commit. Qed.

Lemma commit_isMouseDownRef s : isMouseDownRef (commit s) = isMouseDownRef s.
Proof. unfold_commit. Qed.

Lemma commit_startPosRef s : startPosRef (commit s) = startPosRef s.
Proof. unfold_commit. Qed.

Lemma commit_isInputClickRef s :
  isInputClickRef (commit s) = isInputClickRef s.
Proof. unfold_commit. Qed.

Lemma commit_mounted s : mounted (commit s) = mounted s.
Proof. unfold_commit. Qed.

Lemma commit_translations s : translations (commit s) = translations s.
Proof.
  unfold translations.
  now rewrite commit_currentTranslate, commit_prevTranslate,
    commit_maxTranslate.
Qed.

Create Rewrite HintDb commit.

#[local] Hint Rewrite commit_currentTranslate commit_prevTranslate
  commit_maxTranslate commit_isDragging commit_gap commit_isMouseDownRef
  commit_startPosRef commit_isInputClickRef commit_mounted : commit.

Lemma mounted_true s : mounted s = true <-> trackRef s <> None.
Proof. unfold mounted. destruct (trackRef s); split; congruence. Qed.

Lemma mounted_false s : mounted s = false <-> trackRef s = None.
Proof. unfold mounted. destruct (trackRef s); split; congruence. Qed.

(** ** Pointer-down *)

(** C10.  Whatever the event, the state after
    [handleMouseDownTouchStart] is the state before with only the
    pointer-down flag and the starting X written: [currentTranslate],
    [prevTranslate], [maxTranslate], the dragging flag and the input-click
    flag keep their values. *)
Theorem handleMouseDownTouchStart_frame (s : Slider) (e : PointerEvent) :
  let s' := after (handleMouseDownTouchStart s e) in
  s' = set_startPosRef (startPosRef s')
         (set_isMouseDownRef (isMouseDownRef s') s)
  /\ currentTranslate s' = currentTranslate s
  /\ prevTranslate s' = prevTranslate s
  /\ maxTranslate s' = maxTranslate s
  /\ isDragging s' = isDragging s
  /\ isInputClickRef s' = isInputClickRef s.
Proof.
  unfold handleMouseDownTouchStart.
  destruct (clientX_of e) as [x|]; cbn; repeat split.
Qed.

(** ** Unmounted track, index out of range *)

Lemma below_or_beyond_guard (index : number) (n : Q) :
  below_or_beyond index n ->
  number_lt index 0 || number_ge index n = true.
Proof.
  destruct index as [q| | |]; cbn [below_or_beyond number_lt number_ge];
    try reflexivity; try contradiction.
  intros [H | H].
  - apply lt_true in H. now rewrite H.
  - apply ge_true in H. rewrite H. apply orb_true_r.
Qed.

Lemma handleScrollToIndex_out_of_range
    (s : Slider) (el : Element) (index : number) :
  trackRef s = Some el ->
  below_or_beyond index (length_of (children el)) ->
  handleScrollToIndex s index = s.
Proof.
  intros Hel Hq. unfold handleScrollToIndex. rewrite Hel.
  rewrite <- orb_assoc, (below_or_beyond_guard _ _ Hq), orb_true_r.
  reflexivity.
Qed.

(** X18.  With the track ref null, [translate],
    [handleMouseMoveTouchMove] and [handleScrollToIndex] (whatever the
    index, [NaN] too) return at once and change nothing,
    [handleMouseMoveTouchMove] does so without throwing, and
    [handleMouseUpTouchEnd] returns with the three translations unchanged;
    with a finite index below zero or not below the number of children,
    or an infinite one, [handleScrollToIndex] changes nothing either. *)
Theorem unmounted_or_out_of_range_is_silent
    (s : Slider) (e : PointerEvent) (index : number)
    (H : trackRef s = None
         \/ exists el, trackRef s = Some el
                       /\ below_or_beyond index (length_of (children el))) :
  handleScrollToIndex s index = s
  /\ (trackRef s = None ->
      translate s = s
      /\ handleMouseMoveTouchMove s e = Returned s
      /\ translations (handleMouseUpTouchEnd s e) = translations s).
Proof.
  split.
  - destruct H as [H | (el & H & Hi)].
    + unfold handleScrollToIndex. now rewrite H.
    + now apply handleScrollToIndex_out_of_range with el.
  - intro N. unfold translate, handleMouseMoveTouchMove,
      handleMouseUpTouchEnd.
    rewrite N. repeat split.
    cbn. destruct (negb (isDragging s) && in_layout_key (target e));
      cbn; rewrite N; reflexivity.
Qed.

(** ** Scroll to index *)

Lemma fold_left_minus (g : Q) (l : list Q) (acc : Q) :
  fold_left (fun acc width => acc - (width + g)) l acc
  == acc - Qsum (map (fun width => width + g) l).
Proof.
  revert acc. induction l as [|w l IH]; intro acc;
    cbn [fold_left map Qsum fold_right].
  - lra.
  - rewrite IH. unfold Qsum. lra.
Qed.

Lemma fold_left_plus (l : list Q) (acc : Q) :
  fold_left (fun acc slideWidth => acc + slideWidth) l acc == acc + Qsum l.
Proof.
  revert acc. induction l as [|w l IH]; intro acc;
    cbn [fold_left map Qsum fold_right].
  - lra.
  - rewrite IH. unfold Qsum. lra.
Qed.

Lemma truncate_inject_Z (z : Z) : truncate (inject_Z z) = z.
Proof.
  unfold truncate. destruct (Qle_bool 0 (inject_Z z)).
  - apply Qfloor_Z.
  - apply Qceiling_Z.
Qed.

Lemma slice0_index {A : Type} (l : list A) (i : Z) :
  (0 <= i <= Z.of_nat (length l))%Z ->
  slice0 l (inject_Z i) = firstn (Z.to_nat i) l.
Proof.
  intro H. unfold slice0. rewrite truncate_inject_Z.
  destruct (i <? 0)%Z eqn:E; [lia|].
  now rewrite Z.min_l by lia.
Qed.

(** X17.  With the track mounted: for an integer index [i] with
    [0 <= i < number of children], [handleScrollToIndex] sets the offset
    (and the settled offset with it) to minus the sum of
    [width + gap] over the first [i] children; for a finite index below
    zero or not below the number of children and for an infinite one,
    and for every index, [NaN] too, when the track has no children, it
    returns the state it was given. *)
Theorem handleScrollToIndex_offset (s : Slider) (el : Element)
    (Hel : trackRef s = Some el) :
  (forall i : Z,
      (0 <= i < Z.of_nat (length (children el)))%Z ->
      let s' := handleScrollToIndex s (inject_Z i) in
      currentTranslate s'
      == - Qsum (map (fun width => width + gap s)
                     (firstn (Z.to_nat i) (children el)))
      /\ prevTranslate s' = currentTranslate s')
  /\ (forall index : number,
         below_or_beyond index (length_of (children el)) ->
         handleScrollToIndex s index = s)
  /\ (children el = [] ->
      forall index : number, handleScrollToIndex s index = s).
Proof.
  split; [|split].
  - intros i Hi s'. subst s'. unfold handleScrollToIndex. rewrite Hel.
    assert (E1 : Qeq_bool (length_of (children el)) 0 = false).
    { destruct (Qeq_bool _ _) eqn:E; [|reflexivity].
      apply Qeq_bool_iff in E. unfold length_of in E.
      change 0 with (inject_Z 0) in E. rewrite inject_Z_injective in E. lia. }
    assert (E2 : lt (inject_Z i) 0 = false).
    { apply lt_false. change 0 with (inject_Z 0). rewrite <- Zle_Qle. lia. }
    assert (E3 : ge (inject_Z i) (length_of (children el)) = false).
    { destruct (ge _ _) eqn:E; [|reflexivity].
      apply ge_true in E. unfold length_of in E.
      rewrite <- Zle_Qle in E. lia. }
    cbn [number_lt number_ge slice_to]. rewrite E1, E2, E3.
    cbn [orb setTimeout set_timers set_trackRef setPrevTranslate
         setCurrentTranslate currentTranslate prevTranslate gap].
    rewrite slice0_index by lia. split.
    + rewrite fold_left_minus. lra.
    + reflexivity.
  - intros index Hq. now apply handleScrollToIndex_out_of_range with el.
  - intros Hnil index. unfold handleScrollToIndex.
    rewrite Hel, Hnil. reflexivity.
Qed.

(** C2.  On a mounted track with at least one child, [NaN] passes the
    range test of [handleScrollToIndex] although it is not an index of
    any child: the call sets both offsets to 0, sets the ease-out
    transition and a transform of 0, and queues the clearing timer, so the
    state is not the one it was given. *)
Theorem handleScrollToIndex_NaN_resets (s : Slider) (el : Element)
    (Hel : trackRef s = Some el) (Hne : children el <> []) :
  let s' := handleScrollToIndex s NaN in
  currentTranslate s' = 0
  /\ prevTranslate s' = 0
  /\ trackRef s' = Some (set_transform 0 (set_transition ease_out el))
  /\ timers s' = timers s ++ [clear_timer]
  /\ s' <> s.
Proof.
  intro s'. subst s'. unfold handleScrollToIndex. rewrite Hel.
  assert (E1 : Qeq_bool (length_of (children el)) 0 = false).
  { destruct (Qeq_bool _ _) eqn:E; [|reflexivity].
    apply Qeq_bool_iff in E. unfold length_of in E.
    change 0 with (inject_Z 0) in E. rewrite inject_Z_injective in E.
    destruct (children el); [contradiction | discriminate]. }
  rewrite E1. cbn [number_lt number_ge slice_to orb fold_left].
  repeat split. intro E. apply (f_equal timers) in E.
  apply (f_equal (@length Timer)) in E. cbn in E.
  rewrite length_app in E. cbn in E. lia.
Qed.

(** C8.  On a mounted track with at least one child,
    [handleScrollToIndex] called with [NaN], which is no child's index,
    returns with the translation state at (0, 0, [maxTranslate]): when
    the offset was not 0 before, the call has changed the translation
    state. *)
Theorem handleScrollToIndex_NaN_moves (s : Slider) (el : Element)
    (Hel : trackRef s = Some el) (Hne : children el <> [])
    (Hoff : ~ currentTranslate s == 0) :
  translations (handleScrollToIndex s NaN) = (0, 0, maxTranslate s)
  /\ ~ currentTranslate (handleScrollToIndex s NaN) == currentTranslate s
  /\ translations (handleScrollToIndex s NaN) <> translations s.
Proof.
  unfold handleScrollToIndex. rewrite Hel.
  assert (E1 : Qeq_bool (length_of (children el)) 0 = false).
  { destruct (Qeq_bool _ _) eqn:E; [|reflexivity].
    apply Qeq_bool_iff in E. unfold length_of in E.
    change 0 with (inject_Z 0) in E. rewrite inject_Z_injective in E.
    destruct (children el); [contradiction | discriminate]. }
  rewrite E1. cbn [number_lt number_ge slice_to orb fold_left].
  unfold translations. cbn. repeat split.
  - intro E. apply Hoff. now symmetry.
  - intro E. injection E as E _. apply Hoff. rewrite <- E. reflexivity.
Qed.

(** ** What the handlers leave alone *)

Lemma handle_mounted s a : mounted (handle s a) = mounted s.
Proof. frame. Qed.

Lemma handle_maxTranslate s a : maxTranslate (handle s a) = maxTranslate s.
Proof. frame. Qed.

Lemma handle_gap s a : gap (handle s a) = gap s.
Proof. frame. Qed.

Lemma handle_windowListeners s a :
  windowListeners (handle s a) = windowListeners s.
Proof. frame. Qed.

Lemma handle_rendered s a : rendered (handle s a) = rendered s.
Proof. frame. Qed.

Lemma handle_unmounted s a :
  trackRef s = None -> translations (handle s a) = translations s.
Proof. frame. Qed.

Lemma step_mounted s a : mounted (step s a) = mounted s.
Proof. unfold step. now rewrite commit_mounted, handle_mounted. Qed.

Lemma step_maxTranslate s a : maxTranslate (step s a) = maxTranslate s.
Proof. unfold step. now rewrite commit_maxTranslate, handle_maxTranslate. Qed.

Lemma step_unmounted s a :
  trackRef s = None -> translations (step s a) = translations s.
Proof.
  intro H. unfold step. rewrite commit_translations.
  now apply handle_unmounted.
Qed.

(** Induction on a run goes from the left: the state after [l ++ [a]] is
    one step after the state after [l]. *)
Lemma run_snoc s l a : run s (l ++ [a]) = step (run s l) a.
Proof. unfold run. now rewrite fold_left_app. Qed.

Lemma run_app s l1 l2 : run s (l1 ++ l2) = run (run s l1) l2.
Proof. unfold run. now rewrite fold_left_app. Qed.

Lemma run_cons s a l : run s (a :: l) = run (step s a) l.
Proof. reflexivity. Qed.

Lemma run_mounted s l : mounted (run s l) = mounted s.
Proof.
  induction l as [|a l IH] using rev_ind; [reflexivity|].
  now rewrite run_snoc, step_mounted.
Qed.

Lemma run_maxTranslate s l : maxTranslate (run s l) = maxTranslate s.
Proof.
  induction l as [|a l IH] using rev_ind; [reflexivity|].
  now rewrite run_snoc, step_maxTranslate.
Qed.

Lemma run_unmounted s l :
  trackRef s = None -> translations (run s l) = translations s.
Proof.
  intro H. induction l as [|a l IH] using rev_ind; [reflexivity|].
  rewrite run_snoc, step_unmounted; [exact IH|].
  apply mounted_false. rewrite run_mounted. now apply mounted_false.
Qed.

(** ** Mounting *)

Lemma useSlider_mounted p o :
  mounted (useSlider p o) = match o with Some _ => true | None => false end.
Proof.
  unfold useSlider. rewrite commit_mounted.
  unfold maxTranslateEffect, listenerEffect, transformEffect, mounted.
  destruct o; break_conditions; reflexivity.
Qed.

Lemma useSlider_unmounted p : translations (useSlider p None) = (0, 0, 0).
Proof.
  unfold useSlider. rewrite commit_translations.
  unfold maxTranslateEffect, listenerEffect, transformEffect.
  cbn. destruct (props_isDragging p); reflexivity.
Qed.

Lemma listenerEffect_frame s :
  trackRef (listenerEffect s) = trackRef s
  /\ gap (listenerEffect s) = gap s
  /\ maxTranslate (listenerEffect s) = maxTranslate s.
Proof. unfold listenerEffect. destruct (isDragging s); auto. Qed.

Lemma maxTranslateEffect_maxTranslate s :
  maxTranslate (maxTranslateEffect s)
  = match trackRef s with
    | Some el =>
        if gt (length_of (children el)) 0
        then - (fold_left (fun acc slideWidth => acc + slideWidth)
                          (children el) 0
                + gap s * (length_of (children el) - 1) - offsetWidth el)
        else maxTranslate s
    | None => maxTranslate s
    end.
Proof.
  unfold maxTranslateEffect.
  destruct (trackRef s); [destruct (gt _ _)|]; reflexivity.
Qed.

Lemma useSlider_maxTranslate p el :
  maxTranslate (useSlider p (Some el))
  = if gt (length_of (children el)) 0
    then - (fold_left (fun acc slideWidth => acc + slideWidth)
                      (children el) 0
            + gap_of p * (length_of (children el) - 1) - offsetWidth el)
    else 0.
Proof.
  unfold useSlider. rewrite commit_maxTranslate.
  rewrite maxTranslateEffect_maxTranslate.
  match goal with
  | |- context [listenerEffect ?s] =>
      destruct (listenerEffect_frame s) as (-> & -> & ->)
  end.
  reflexivity.
Qed.

(** No track, or a track without children: nothing is measured. *)
Lemma useSlider_unmeasured p o :
  o = None \/ (exists el, o = Some el /\ children el = []) ->
  maxTranslate (useSlider p o) = 0.
Proof.
  intros [-> | (el & -> & H)].
  - change (snd (translations (useSlider p None)) = 0).
    now rewrite useSlider_unmounted.
  - rewrite useSlider_maxTranslate, H. reflexivity.
Qed.

(** C7 (amended).  When the track is mounted with at least one child,
    [maxTranslate] after mount is minus (the sum of the children's widths
    plus [gap] times (the number of children minus one) minus the
    container's width), and no later handler call or timer changes it. *)
Theorem maxTranslate_measured_once
    (p : UseSliderProps) (el : Element) (l : list Action)
    (H : children el <> []) :
  maxTranslate (useSlider p (Some el))
  == - (Qsum (children el)
        + gap_of p * (length_of (children el) - 1) - offsetWidth el)
  /\ maxTranslate (run (useSlider p (Some el)) l)
     = maxTranslate (useSlider p (Some el)).
Proof.
  split; [|apply run_maxTranslate].
  rewrite useSlider_maxTranslate.
  assert (G : gt (length_of (children el)) 0 = true).
  { apply gt_true. unfold length_of. change 0 with (inject_Z 0).
    rewrite <- Zlt_Qlt. destruct (children el); [contradiction|].
    cbn [length]. lia. }
  rewrite G, fold_left_plus. lra.
Qed.

(** ** Release *)

Lemma handleMouseUpTouchEnd_mounted s e :
  mounted s = true ->
  let s' := handleMouseUpTouchEnd s e in
  currentTranslate s' = clamp s
  /\ prevTranslate s' = currentTranslate s
  /\ maxTranslate s' = maxTranslate s.
Proof.
  unfold clamp, handleMouseUpTouchEnd, mounted.
  destruct s, e; cbn. destruct trackRef0; [|discriminate]. intros _.
  break_conditions; repeat split.
Qed.

Lemma clamp_bounds s :
  maxTranslate s <= 0 -> maxTranslate s <= clamp s /\ clamp s <= 0.
Proof.
  intro H. unfold clamp.
  destruct (gt _ _) eqn:G; [lra|]. apply gt_false in G.
  destruct (lt _ _) eqn:L; [lra|]. apply lt_false in L. lra.
Qed.

Lemma run_from_unmounted p l :
  let s := run (useSlider p None) l in
  mounted s = false /\ currentTranslate s = 0 /\ maxTranslate s = 0
  /\ prevTranslate s = 0.
Proof.
  intro s. subst s.
  assert (N : trackRef (useSlider p None) = None).
  { apply mounted_false. now rewrite useSlider_mounted. }
  pose proof (run_unmounted (useSlider p None) l N) as T.
  rewrite useSlider_unmounted in T. unfold translations in T.
  rewrite run_mounted, useSlider_mounted.
  injection T as -> -> ->. auto.
Qed.

(** C1 (amended).  After any sequence of handler calls and timers since
    mount, if [maxTranslate] is at most 0 (the children with their gaps
    are at least as wide as the container), then once
    [handleMouseUpTouchEnd] has run the offset is at least [maxTranslate]
    and at most 0. *)
Theorem settled_offset_within_bounds
    (p : UseSliderProps) (o : option Element) (l : list Action)
    (e : PointerEvent)
    (H : maxTranslate (run (useSlider p o) l) <= 0) :
  let s' := step (run (useSlider p o) l) (PointerUp e) in
  maxTranslate s' <= currentTranslate s' /\ currentTranslate s' <= 0.
Proof.
  intro s'. subst s'. unfold step.
  rewrite commit_maxTranslate, commit_currentTranslate.
  destruct o as [el|].
  - assert (M : mounted (run (useSlider p (Some el)) l) = true)
      by now rewrite run_mounted, useSlider_mounted.
    destruct (handleMouseUpTouchEnd_mounted _ e M) as (C & _ & X).
    cbn [handle]. rewrite C, X. now apply clamp_bounds.
  - destruct (run_from_unmounted p l) as (M & C & X & _).
    apply mounted_false in M.
    pose proof (handle_unmounted _ (PointerUp e) M) as T.
    unfold translations in T. cbn [handle] in T |- *.
    injection T as T1 _ T3. rewrite T1, T3, C, X. lra.
Qed.

(** C9.  After any sequence of handler calls and timers since mount, if
    the offset is above 0 or below [maxTranslate] when
    [handleMouseUpTouchEnd] runs, then [prevTranslate] becomes the offset
    as it was at release, [currentTranslate] becomes the bound (0 when the
    offset was above 0, else [maxTranslate]), the two differ, and
    [prevTranslate] is outside [maxTranslate, 0]. *)
Theorem release_keeps_unclamped_prevTranslate
    (p : UseSliderProps) (o : option Element) (l : list Action)
    (e : PointerEvent) :
  let s := run (useSlider p o) l in
  0 < currentTranslate s \/ currentTranslate s < maxTranslate s ->
  let s' := step s (PointerUp e) in
  prevTranslate s' = currentTranslate s
  /\ (0 < currentTranslate s -> currentTranslate s' = 0)
  /\ (currentTranslate s <= 0 -> currentTranslate s' = maxTranslate s)
  /\ ~ prevTranslate s' == currentTranslate s'
  /\ ~ (maxTranslate s' <= prevTranslate s' /\ prevTranslate s' <= 0).
Proof.
  intros s H s'. subst s s'. unfold step.
  rewrite commit_maxTranslate, commit_currentTranslate,
    commit_prevTranslate.
  destruct o as [el|].
  - assert (M : mounted (run (useSlider p (Some el)) l) = true)
      by now rewrite run_mounted, useSlider_mounted.
    destruct (handleMouseUpTouchEnd_mounted _ e M) as (C & P & X).
    cbn [handle]. rewrite C, P, X. unfold clamp.
    set (s := run (useSlider p (Some el)) l) in *.
    destruct (gt (currentTranslate s) 0) eqn:G.
    + apply gt_true in G. repeat split; try lra.
    + apply gt_false in G.
      destruct (lt (currentTranslate s) (maxTranslate s)) eqn:L.
      * apply lt_true in L. repeat split; try lra.
      * apply lt_false in L. lra.
  - destruct (run_from_unmounted p l) as (_ & C & X & _).
    rewrite C, X in H. lra.
Qed.

(** ** Gestures *)

Lemma step_down s e x0 :
  clientX_of e = Some x0 ->
  let s' := step s (PointerDown e) in
  startPosRef s' = x0 /\ isMouseDownRef s' = true
  /\ mounted s' = mounted s /\ isDragging s' = isDragging s
  /\ prevTranslate s' = prevTranslate s /\ maxTranslate s' = maxTranslate s.
Proof.
  intros H s'. subst s'. unfold step. autorewrite with commit.
  cbn [handle]. unfold handleMouseDownTouchStart. rewrite H.
  repeat split.
Qed.

Lemma step_move_frame s e :
  let s' := step s (PointerMove e) in
  startPosRef s' = startPosRef s /\ isMouseDownRef s' = isMouseDownRef s
  /\ mounted s' = mounted s
  /\ prevTranslate s' = prevTranslate s /\ maxTranslate s' = maxTranslate s
  /\ (isDragging s = true -> isDragging s' = true).
Proof.
  intro s'. subst s'. unfold step. autorewrite with commit.
  repeat split; frame.
Qed.

Lemma step_move_still s e x0 :
  startPosRef s = x0 -> ~ moved_from x0 e -> isDragging s = false ->
  isDragging (step s (PointerMove e)) = false.
Proof.
  intros Hs Hm Hd. unfold step. autorewrite with commit.
  cbn [handle]. unfold handleMouseMoveTouchMove, calculateDiff.
  destruct (trackRef s); [|exact Hd].
  destruct (clientX_of e) as [x|] eqn:Hx; [|exact Hd].
  cbn [isMouseDownRef diffRef set_diffRef].
  assert (E : strict_neq (x - startPosRef s) 0 = false).
  { apply strict_neq_false. rewrite Hs.
    destruct (Qeq_dec x x0) as [E|E]; [lra|].
    exfalso. apply Hm. now exists x. }
  rewrite E, andb_false_r. exact Hd.
Qed.

Lemma step_move_drags s e x0 x :
  held s x0 -> clientX_of e = Some x -> ~ x == x0 ->
  let s' := step s (PointerMove e) in
  isDragging s' = true
  /\ currentTranslate s' = damped s (prevTranslate s + (x - x0)).
Proof.
  intros [Hm Hd Hs] Hx Hne s'. subst s'. unfold step.
  autorewrite with commit.
  cbn [handle]. unfold handleMouseMoveTouchMove, calculateDiff.
  unfold mounted in Hm. destruct (trackRef s) eqn:Ht; [|discriminate].
  rewrite Hx. cbn [isMouseDownRef diffRef set_diffRef]. rewrite Hd, Hs.
  assert (E : strict_neq (x - x0) 0 = true).
  { apply strict_neq_true. intro. apply Hne. lra. }
  rewrite E. cbn [andb after]. unfold translate.
  cbn [trackRef setIsDragging set_diffRef]. rewrite Ht.
  split; reflexivity.
Qed.

Lemma held_after_down s e x0 :
  mounted s = true -> clientX_of e = Some x0 ->
  held (step s (PointerDown e)) x0.
Proof.
  intros Hm H. destruct (step_down s e x0 H) as (A & B & C & _).
  split; congruence.
Qed.

Lemma held_after_move s e x0 : held s x0 -> held (step s (PointerMove e)) x0.
Proof.
  intros [Hm Hd Hs].
  destruct (step_move_frame s e) as (A & B & C & _).
  split; congruence.
Qed.

(** Any number of moves keeps the button held, the starting X, and the
    settled offset and bound the next [translate] starts from. *)
Lemma run_moves s x0 ms :
  held s x0 ->
  let s' := run s (map PointerMove ms) in
  held s' x0
  /\ prevTranslate s' = prevTranslate s /\ maxTranslate s' = maxTranslate s
  /\ (isDragging s = true -> isDragging s' = true).
Proof.
  revert s. induction ms as [|m ms IH]; intros s H s'; subst s'.
  - cbn. auto.
  - cbn [map]. rewrite run_cons.
    destruct (step_move_frame s m) as (_ & _ & _ & P & X & D).
    destruct (IH _ (held_after_move s m x0 H)) as (H' & P' & X' & D').
    repeat split; try apply H'; try congruence. auto.
Qed.

(** A held move to a different X after pointer-down at [x0] and any
    moves in between renders [damped] of the settled offset plus the
    displacement. *)
Lemma held_move s e0 x0 ms e x :
  trackRef s <> None ->
  clientX_of e0 = Some x0 -> clientX_of e = Some x -> ~ x == x0 ->
  currentTranslate
    (run s (PointerDown e0 :: map PointerMove ms ++ [PointerMove e]))
  = damped s (prevTranslate s + (x - x0)).
Proof.
  intros Hm H0 Hx Hne. apply mounted_true in Hm.
  rewrite run_cons, run_snoc.
  destruct (step_down s e0 x0 H0) as (_ & _ & _ & _ & P & X).
  pose proof (held_after_down s e0 x0 Hm H0) as H.
  destruct (run_moves _ x0 ms H) as (H' & P' & X' & _).
  destruct (step_move_drags _ e x0 x H' Hx Hne) as (_ & C).
  rewrite C, P', P. unfold damped. now rewrite X', X.
Qed.

(** C6 (amended).  After any sequence of handler calls and timers since
    mount: after pointer-down at [x0] and any moves, a move to an X other
    than [x0] whose tentative offset [prevTranslate + delta],
    [delta = x - x0], lies within [maxTranslate, 0] renders exactly that
    offset. *)
Theorem held_move_within_bounds
    (p : UseSliderProps) (o : option Element) (l : list Action)
    (e0 : PointerEvent) (x0 : Q) (ms : list PointerEvent)
    (e : PointerEvent) (x : Q) :
  let s := run (useSlider p o) l in
  clientX_of e0 = Some x0 -> clientX_of e = Some x -> ~ x == x0 ->
  maxTranslate s <= prevTranslate s + (x - x0) ->
  prevTranslate s + (x - x0) <= 0 ->
  currentTranslate
    (run s (PointerDown e0 :: map PointerMove ms ++ [PointerMove e]))
  == prevTranslate s + (x - x0).
Proof.
  intros s H0 Hx Hne Hlo Hhi. destruct o as [el|].
  - assert (Hm : trackRef s <> None).
    { apply mounted_true. subst s.
      now rewrite run_mounted, useSlider_mounted. }
    rewrite (held_move s e0 x0 ms e x Hm H0 Hx Hne). unfold damped.
    apply gt_false in Hhi. apply lt_false in Hlo. rewrite Hhi, Hlo.
    reflexivity.
  - destruct (run_from_unmounted p l) as (_ & _ & X & P).
    fold s in X, P. rewrite X, P in *. exfalso. apply Hne. lra.
Qed.

(** C3 (amended).  With the track mounted: after pointer-down at [x0] and
    any moves, a move to an X other than [x0] renders, when the tentative
    offset [prevTranslate + delta] is above 0, 0 plus 0.3 times the
    excess over 0, and, when it is not above 0 and is below
    [maxTranslate], [maxTranslate] plus 0.3 times the (negative) excess
    beyond [maxTranslate]. *)
Theorem held_move_beyond_bounds
    (s : Slider) (e0 : PointerEvent) (x0 : Q) (ms : list PointerEvent)
    (e : PointerEvent) (x : Q)
    (Hm : trackRef s <> None)
    (H0 : clientX_of e0 = Some x0) (Hx : clientX_of e = Some x)
    (Hne : ~ x == x0) :
  let tentative := prevTranslate s + (x - x0) in
  let rendered :=
    currentTranslate
      (run s (PointerDown e0 :: map PointerMove ms ++ [PointerMove e])) in
  (0 < tentative -> rendered == 0 + BOUNCE_FACTOR * (tentative - 0))
  /\ (tentative <= 0 -> tentative < maxTranslate s ->
      rendered
      == maxTranslate s + BOUNCE_FACTOR * (tentative - maxTranslate s)).
Proof.
  intros tentative rendered. subst rendered.
  rewrite (held_move s e0 x0 ms e x Hm H0 Hx Hne). fold tentative.
  unfold damped. split.
  - intro H. apply gt_true in H. rewrite H. lra.
  - intros H L. apply gt_false in H. apply lt_true in L. rewrite H, L. lra.
Qed.

Lemma step_up_click s e :
  let s' := step s (PointerUp e) in
  isInputClickRef s' = negb (isDragging s) && in_layout_key (target e)
  /\ (isDragging s = false -> isDragging s' = false).
Proof.
  intro s'. subst s'. unfold step. autorewrite with commit.
  split; frame.
Qed.

Lemma step_timer_frame s k :
  let s' := step s (TimerFires k) in
  startPosRef s' = startPosRef s /\ isMouseDownRef s' = isMouseDownRef s
  /\ mounted s' = mounted s
  /\ (isDragging s = false -> isDragging s' = false)
  /\ (fires_stop s k = false -> isDragging s' = isDragging s).
Proof.
  intro s'. subst s'. unfold step. autorewrite with commit.
  cbn [handle]. unfold fire, fires_stop, mounted.
  destruct (nth_error (timers s) k) as [[[|] d]|];
    cbn [callback run_callback];
    destruct s as [? ? ? ? ? [el|] ? ? ? ? ? ? ? ?]; cbn;
    repeat split; auto; discriminate.
Qed.

Lemma held_after_timer s k x0 :
  held s x0 -> held (step s (TimerFires k)) x0.
Proof.
  intros [Hm Hd Hs].
  destruct (step_timer_frame s k) as (A & B & C & _).
  split; congruence.
Qed.

Lemma run_held s x0 l :
  held s x0 -> Forall between_press_and_release l -> held (run s l) x0.
Proof.
  intros H F. revert s H.
  induction F as [|a l Ha _ IH]; intros s H; [exact H|].
  rewrite run_cons. apply IH.
  destruct a as [e|e|e| |index|k]; try contradiction.
  - now apply held_after_move.
  - now apply held_after_timer.
Qed.

Lemma run_stays s x0 l :
  startPosRef s = x0 -> isDragging s = false -> Forall (stays_at x0) l ->
  isDragging (run s l) = false.
Proof.
  intros Hs Hd F. revert s Hs Hd.
  induction F as [|a l Ha _ IH]; intros s Hs Hd; [exact Hd|].
  rewrite run_cons.
  destruct a as [e|e|e| |index|k]; try contradiction.
  - apply IH.
    + destruct (step_move_frame s e) as (A & _). congruence.
    + now apply step_move_still with x0.
  - destruct (step_timer_frame s k) as (A & _ & _ & D & _).
    apply IH; [congruence | now apply D].
Qed.

Lemma run_keeps_dragging s l :
  isDragging s = true -> keeps_dragging s l -> isDragging (run s l) = true.
Proof.
  revert s. induction l as [|a l IH]; intros s Hd K; [exact Hd|].
  destruct K as (Ka & K). rewrite run_cons. apply IH; [|exact K].
  destruct a as [e|e|e| |index|k]; try contradiction.
  - now apply (step_move_frame s e).
  - destruct (step_timer_frame s k) as (_ & _ & _ & _ & D).
    now rewrite (D Ka).
Qed.

(** C4 (amended).  For a gesture whose pointer-down reports [x0], with
    pending timers free to fire between its events: if the dragging flag
    is clear when it starts, no move reports an X other than [x0], and
    the release is on an input-like child, the callback of
    [handleInputClick] calls [setState] exactly once; if the track is
    mounted, some move reports an X other than [x0], and between that
    move and the release no timer fires that clears the dragging flag,
    the callback does not call [setState]. *)
Theorem tap_updates_once_drag_never
    {O : Type} (s : Slider) (e0 : PointerEvent) (x0 : Q)
    (eu : PointerEvent) (option : O)
    (H0 : clientX_of e0 = Some x0) :
  (forall mid : list Action,
      isDragging s = false ->
      Forall (stays_at x0) mid ->
      in_layout_key (target eu) = true ->
      handleInputClick
        (run s (PointerDown e0 :: mid ++ [PointerUp eu])) option
      = [option])
  /\ (forall (before : list Action) (m : PointerEvent)
             (after : list Action),
         trackRef s <> None ->
         Forall between_press_and_release before ->
         moved_from x0 m ->
         keeps_dragging
           (run s (PointerDown e0 :: before ++ [PointerMove m])) after ->
         handleInputClick
           (run s (PointerDown e0
                   :: before ++ PointerMove m :: after ++ [PointerUp eu]))
           option
         = []).
Proof.
  destruct (step_down s e0 x0 H0) as (S0 & D0 & M0 & G0 & _).
  split.
  - intros mid Hd Hf Hk. rewrite run_cons, run_snoc.
    pose proof (run_stays (step s (PointerDown e0)) x0 mid S0
                  (eq_trans G0 Hd) Hf) as G.
    destruct (step_up_click (run (step s (PointerDown e0)) mid) eu)
      as (C & D).
    unfold handleInputClick. rewrite (D G), C, G, Hk. reflexivity.
  - intros before m after Hm Hb (x & Hx & Hne) K.
    apply mounted_true in Hm.
    pose proof (held_after_down s e0 x0 Hm H0) as H.
    pose proof (run_held _ x0 before H Hb) as H'.
    destruct (step_move_drags _ m x0 x H' Hx Hne) as (G & _).
    set (t := run s (PointerDown e0 :: before ++ [PointerMove m])) in *.
    assert (Gt : isDragging t = true).
    { subst t. now rewrite run_cons, run_snoc. }
    pose proof (run_keeps_dragging t after Gt K) as G'.
    replace (PointerDown e0
             :: before ++ PointerMove m :: after ++ [PointerUp eu])
      with ((PointerDown e0 :: before ++ [PointerMove m])
            ++ after ++ [PointerUp eu])
      by (cbn [app]; now rewrite <- app_assoc).
    rewrite run_app. fold t. rewrite run_snoc.
    destruct (step_up_click (run t after) eu) as (C & _).
    unfold handleInputClick. rewrite C, G'. cbn [negb andb].
    now destruct (isDragging (step _ (PointerUp eu))).
Qed.

(** ** Window listeners *)

Lemma same_deps_dragging a b :
  same_deps a b = true -> dep_dragging a = dep_dragging b.
Proof.
  unfold same_deps. intro H.
  apply andb_true_iff in H. destruct H as [_ H]. now apply eqb_prop.
Qed.

Lemma transformEffect_frame s :
  windowListeners (transformEffect s) = windowListeners s
  /\ isDragging (transformEffect s) = isDragging s.
Proof. unfold transformEffect. destruct (trackRef s); auto. Qed.

Lemma cleanup_then_effect s b :
  windowListeners s = listenersFor b ->
  windowListeners (listenerEffect (listenerCleanup s))
  = listenersFor (isDragging s)
  /\ isDragging (listenerEffect (listenerCleanup s)) = isDragging s.
Proof.
  intro H. unfold listenerEffect, listenerCleanup.
  cbn [isDragging set_windowListeners windowListeners]. rewrite H.
  destruct b, (isDragging s) eqn:D; split; cbn; now rewrite ?D.
Qed.

Lemma commit_listening s :
  windowListeners s = listenersFor (dep_dragging (rendered s)) ->
  listening (commit s).
Proof.
  intro H. unfold commit.
  destruct (same_deps (deps_of s) (rendered s)) eqn:E.
  - apply same_deps_dragging in E. cbn [deps_of dep_dragging] in E.
    split; congruence.
  - set (s1 := if Qeq_bool _ _ then s else transformEffect s).
    assert (F : windowListeners s1 = windowListeners s
                /\ isDragging s1 = isDragging s).
    { subst s1. destruct (Qeq_bool _ _); [auto|].
      apply transformEffect_frame. }
    destruct F as (W & D). rewrite <- W in H.
    destruct (cleanup_then_effect s1 _ H) as (W' & D').
    split; cbn [set_rendered windowListeners isDragging rendered
                deps_of dep_dragging]; congruence.
Qed.

Lemma useSlider_listening p o : listening (useSlider p o).
Proof.
  unfold useSlider. apply commit_listening.
  unfold maxTranslateEffect, listenerEffect, transformEffect.
  destruct o as [el|], (props_isDragging p); cbn;
    try destruct (gt _ _); reflexivity.
Qed.

Lemma step_listening s a : listening s -> listening (step s a).
Proof.
  intros [W R]. unfold step. apply commit_listening.
  rewrite handle_windowListeners, handle_rendered. congruence.
Qed.

Lemma run_listening s l : listening s -> listening (run s l).
Proof.
  intro H. induction l as [|a l IH] using rev_ind; [exact H|].
  rewrite run_snoc. now apply step_listening.
Qed.

Lemma step_up_dragging s e :
  let s' := step s (PointerUp e) in
  (trackRef s <> None -> in_track (target e) = true ->
   isDragging s' = false)
  /\ (in_track (target e) = false -> isDragging s' = isDragging s).
Proof.
  intro s'. subst s'. unfold step. autorewrite with commit.
  split; frame; congruence.
Qed.

(** * The properties on concrete sliders *)

(** C1, as stated, fails: a press and release without movement on the
    narrow slider settles at +200, above 0. *)
Lemma narrow_slider_settles_above_zero :
  let s := run narrow [PointerDown (mouse 0 on_track);
                       PointerUp (mouse 0 on_track)] in
  currentTranslate s == 200
  /\ ~ (maxTranslate s <= currentTranslate s /\ currentTranslate s <= 0).
Proof.
  cbv zeta. split; [decide_Q|].
  intros [_ H]. vm_compute in H. apply H. reflexivity.
Qed.

Lemma settled_offset_within_bounds_witness :
  let l := [PointerDown (mouse 0 on_track);
            PointerMove (mouse 100 on_track)] in
  maxTranslate (run wide l) <= 0
  /\ let s' := step (run wide l) (PointerUp (mouse 100 on_track)) in
     maxTranslate s' <= currentTranslate s' /\ currentTranslate s' <= 0.
Proof.
  intro l.
  assert (H : maxTranslate (run wide l) <= 0) by decide_Q.
  split; [exact H|].
  exact (settled_offset_within_bounds default_props
           (Some (track [500] 300)) l (mouse 100 on_track) H).
Defined.

Lemma handleScrollToIndex_offset_witness :
  let empty := useSlider default_props (Some (track [] 300)) in
  (let s' := handleScrollToIndex three 2 in
   currentTranslate s' == - ((200 + 16) + ((200 + 16) + 0))
   /\ prevTranslate s' = currentTranslate s')
  /\ handleScrollToIndex three 3 = three
  /\ handleScrollToIndex three (-1) = three
  /\ handleScrollToIndex three Infinity = three
  /\ handleScrollToIndex empty 0 = empty
  /\ handleScrollToIndex empty NaN = empty.
Proof.
  intro empty.
  pose (el := {| children := [200; 200; 200]; offsetWidth := 300;
                 style := {| transition := EmptyString;
                             transform := Some 0 |} |}).
  assert (Hel : trackRef three = Some el) by (vm_compute; reflexivity).
  destruct (handleScrollToIndex_offset three el Hel) as (In & Out & _).
  pose (el0 := {| children := []; offsetWidth := 300;
                  style := {| transition := EmptyString;
                              transform := Some 0 |} |}).
  assert (Hel0 : trackRef empty = Some el0) by (vm_compute; reflexivity).
  destruct (handleScrollToIndex_offset empty el0 Hel0) as (_ & _ & Empty).
  split; [|split; [|split; [|split; [|split]]]].
  - apply (In 2%Z). cbn. lia.
  - apply Out. right. decide_Q.
  - apply Out. left. decide_Q.
  - apply Out. exact I.
  - apply Empty. reflexivity.
  - apply Empty. reflexivity.
Defined.

(** C3, as stated, fails.  After a release at +30 the settled offset is
    30 while the rendered offset is 0; on the next press, a move event at
    the starting X has a tentative offset of 30, above 0, but nothing is
    rendered for it: the offset stays 0, not 0 + 0.3 * 30.  Two more
    cases the claim does not allow for: without a track nothing is
    rendered at all, and on the narrow slider a tentative offset of 100 is
    above 0 and below [maxTranslate] = 200 and is damped from 0, not from
    200. *)
Lemma move_at_start_renders_nothing :
  let s := run wide [PointerDown (mouse 0 on_track);
                     PointerMove (mouse 100 on_track);
                     PointerUp (mouse 100 on_track);
                     PointerDown (mouse 0 on_track)] in
  let tentative := prevTranslate s + (0 - startPosRef s) in
  let s' := step s (PointerMove (mouse 0 on_track)) in
  let unmounted :=
    run (useSlider default_props None)
        [PointerDown (mouse 0 on_track); PointerMove (mouse 100 on_track)] in
  let both :=
    run narrow [PointerDown (mouse 0 on_track);
                PointerMove (mouse 100 on_track)] in
  (isMouseDownRef s = true
   /\ 0 < tentative
   /\ currentTranslate s' == 0
   /\ ~ currentTranslate s' == 0 + BOUNCE_FACTOR * (tentative - 0))
  /\ (currentTranslate unmounted == 0
      /\ ~ currentTranslate unmounted == 0 + BOUNCE_FACTOR * (100 - 0))
  /\ (100 < maxTranslate narrow
      /\ currentTranslate both == 30
      /\ ~ currentTranslate both
           == maxTranslate narrow
              + BOUNCE_FACTOR * (100 - maxTranslate narrow)).
Proof. cbv zeta. decide_Q. Qed.

Lemma held_move_beyond_bounds_witness :
  currentTranslate
    (run wide [PointerDown (mouse 100 on_track);
               PointerMove (mouse 150 on_track);
               PointerMove (mouse 200 on_track)])
  == 0 + BOUNCE_FACTOR * (prevTranslate wide + (200 - 100) - 0)
  /\ currentTranslate
       (run wide [PointerDown (mouse 100 on_track);
                  PointerMove (mouse (-200) on_track)])
     == maxTranslate wide
        + BOUNCE_FACTOR
          * (prevTranslate wide + (-200 - 100) - maxTranslate wide).
Proof.
  assert (Hm : trackRef wide <> None) by (vm_compute; discriminate).
  split.
  - apply (held_move_beyond_bounds wide (mouse 100 on_track) 100
             [mouse 150 on_track] (mouse 200 on_track) 200 Hm
             eq_refl eq_refl); decide_Q.
  - apply (held_move_beyond_bounds wide (mouse 100 on_track) 100
             [] (mouse (-200) on_track) (-200) Hm
             eq_refl eq_refl); decide_Q.
Defined.

(** C4, as stated, fails.  A gesture that moves 5px away and back ends
    with zero net movement on an input-like child, yet the callback does
    not call [setState].  After a drag released on a multi-modal backdrop
    the dragging flag is still set, so a press and release with no move
    at all on an input-like child does not call it either.  Without a
    track the moves are ignored, so a gesture that ends 5px away does
    call it.  And so does one on a mounted track when the zero-delay
    timer of an earlier release fires between the move and the
    release. *)
Lemma zero_net_movement_without_update :
  let down := mouse 10 on_layout_key in
  let up := mouse 10 on_layout_key in
  let away_and_back :=
    run wide (gesture down [mouse 15 on_layout_key;
                            mouse 10 on_layout_key] up) in
  let still_dragging :=
    run wide [PointerDown (mouse 100 on_track);
              PointerMove (mouse 50 on_track);
              PointerUp (mouse 50 on_backdrop)] in
  let tap := run still_dragging (gesture down [] up) in
  let unmounted :=
    run (useSlider default_props None)
        (gesture down [mouse 15 on_layout_key]
                 (mouse 15 on_layout_key)) in
  let timer_pending :=
    run wide [PointerDown (mouse 100 on_track);
              PointerMove (mouse 50 on_track);
              PointerUp (mouse 50 elsewhere)] in
  let interrupted :=
    run timer_pending [PointerDown down;
                       PointerMove (mouse 15 on_layout_key);
                       TimerFires 1;
                       PointerUp (mouse 15 on_layout_key)] in
  (clientX_of up = clientX_of down
   /\ in_layout_key (target up) = true
   /\ handleInputClick away_and_back tt = []
   /\ length (handleInputClick away_and_back tt) <> 1%nat)
  /\ (isDragging still_dragging = true
      /\ handleInputClick tap tt = []
      /\ length (handleInputClick tap tt) <> 1%nat)
  /\ handleInputClick unmounted tt = [tt]
  /\ (map callback (timers timer_pending) = [ClearTransition; StopDragging]
      /\ handleInputClick interrupted tt = [tt]).
Proof. cbv zeta. repeat split; vm_compute; (reflexivity || discriminate). Qed.

Lemma tap_updates_once_drag_never_witness :
  let down := mouse 10 on_layout_key in
  let up := mouse 10 on_layout_key in
  let s := run wide [ScrollToIndex 0] in
  handleInputClick
    (run s (PointerDown down
            :: [PointerMove (mouse 10 on_layout_key); TimerFires 0]
            ++ [PointerUp up])) tt = [tt]
  /\ handleInputClick
       (run s (PointerDown down
               :: [PointerMove (mouse 10 on_layout_key)]
               ++ PointerMove (mouse 15 on_layout_key)
               :: [PointerMove (mouse 10 on_layout_key); TimerFires 0]
               ++ [PointerUp up])) tt = [].
Proof.
  intros down up s.
  destruct (tap_updates_once_drag_never s down 10 up tt eq_refl)
    as (Tap & Drag).
  assert (Still : ~ moved_from 10 (mouse 10 on_layout_key)).
  { intros (x & Hx & Hne). injection Hx as <-. apply Hne. reflexivity. }
  split.
  - apply (Tap [PointerMove (mouse 10 on_layout_key); TimerFires 0]).
    + vm_compute. reflexivity.
    + repeat constructor. exact Still.
    + reflexivity.
  - apply (Drag [PointerMove (mouse 10 on_layout_key)]
                (mouse 15 on_layout_key)
                [PointerMove (mouse 10 on_layout_key); TimerFires 0]).
    + vm_compute. discriminate.
    + repeat constructor.
    + exists 15. split; [reflexivity|].
      intro H. vm_compute in H. discriminate.
    + cbn [keeps_dragging]. repeat split.
Defined.

(** C5, as stated, fails.  A drag released on a multi-modal backdrop
    outside the track leaves the dragging flag set and the four listeners
    on the window.  A drag released anywhere else outside the track
    leaves them too, until the zero-delay timer fires. *)
Lemma release_on_backdrop_keeps_listeners :
  let drag := [PointerDown (mouse 100 on_track);
               PointerMove (mouse 50 on_track)] in
  let s := run wide (drag ++ [PointerUp (mouse 50 on_backdrop)]) in
  let s1 := run wide (drag ++ [PointerUp (mouse 50 elsewhere)]) in
  (isMouseDownRef s = false
   /\ isDragging s = true
   /\ map callback (timers s) = [ClearTransition]
   /\ windowListeners s = dragListeners
   /\ windowListeners s <> [])
  /\ (isMouseDownRef s1 = false
      /\ windowListeners s1 = dragListeners
      /\ map callback (timers s1) = [ClearTransition; StopDragging]
      /\ windowListeners (step s1 (TimerFires 1)) = []).
Proof. cbv zeta. repeat split; vm_compute; (reflexivity || discriminate). Qed.

(** C6, as stated, fails: after a move 50px to the left, a move back to
    the starting X has delta 0 and a tentative offset of 0, within
    [-200, 0], but nothing is rendered for it: the offset stays -50. *)
Lemma move_back_to_start_renders_nothing :
  let s := run wide [PointerDown (mouse 100 on_track);
                     PointerMove (mouse 50 on_track)] in
  let tentative := prevTranslate s + (100 - startPosRef s) in
  let s' := step s (PointerMove (mouse 100 on_track)) in
  isMouseDownRef s = true
  /\ maxTranslate s <= tentative /\ tentative <= 0
  /\ currentTranslate s' == -50
  /\ ~ currentTranslate s' == tentative.
Proof. cbv zeta. decide_Q. Qed.

Lemma held_move_within_bounds_witness :
  currentTranslate
    (run wide [PointerDown (mouse 100 on_track);
               PointerMove (mouse 90 on_track);
               PointerMove (mouse 50 on_track)])
  == prevTranslate wide + (50 - 100).
Proof.
  apply (held_move_within_bounds default_props (Some (track [500] 300)) []
           (mouse 100 on_track) 100 [mouse 90 on_track]
           (mouse 50 on_track) 50 eq_refl eq_refl); decide_Q.
Defined.

(** C7, as stated, fails: on a track without children nothing is
    measured and [maxTranslate] stays 0, while the formula gives
    -(0 + 16 * (0 - 1) - 300) = 316. *)
Lemma empty_track_is_not_measured :
  let el := track [] 300 in
  let s := useSlider default_props (Some el) in
  maxTranslate s = 0
  /\ ~ maxTranslate s
       == - (Qsum (children el)
             + gap s * (length_of (children el) - 1) - offsetWidth el).
Proof. cbv zeta. decide_Q. Qed.

Lemma maxTranslate_measured_once_witness :
  let l := [PointerDown (mouse 100 on_track);
            PointerMove (mouse 50 on_track);
            PointerUp (mouse 50 on_track);
            ScrollToIndex 2] in
  maxTranslate three == - (200 + (200 + (200 + 0)) + 16 * (3 - 1) - 300)
  /\ maxTranslate (run three l) = maxTranslate three.
Proof.
  intro l.
  apply (maxTranslate_measured_once default_props
           (track [200; 200; 200] 300) l).
  discriminate.
Defined.

Lemma unmounted_or_out_of_range_is_silent_witness :
  let s := useSlider default_props None in
  let e := mouse 50 on_track in
  handleScrollToIndex s 0 = s
  /\ translate s = s
  /\ handleMouseMoveTouchMove s e = Returned s
  /\ translations (handleMouseUpTouchEnd s e) = translations s.
Proof.
  intros s e.
  assert (N : trackRef s = None) by reflexivity.
  destruct (unmounted_or_out_of_range_is_silent s e 0 (or_introl N))
    as (S & U).
  split; [exact S|]. exact (U N).
Defined.

Lemma release_keeps_unclamped_prevTranslate_witness :
  let s := run wide [PointerDown (mouse 0 on_track);
                     PointerMove (mouse 100 on_track)] in
  let s' := step s (PointerUp (mouse 100 on_track)) in
  0 < currentTranslate s
  /\ prevTranslate s' = currentTranslate s
  /\ currentTranslate s' = 0
  /\ ~ prevTranslate s' == currentTranslate s'
  /\ ~ (maxTranslate s' <= prevTranslate s' /\ prevTranslate s' <= 0).
Proof.
  intros s s'.
  assert (H : 0 < currentTranslate s) by (vm_compute; reflexivity).
  destruct (release_keeps_unclamped_prevTranslate default_props
              (Some (track [500] 300))
              [PointerDown (mouse 0 on_track);
               PointerMove (mouse 100 on_track)]
              (mouse 100 on_track) (or_introl H)) as (P & C & _ & D & O).
  split; [exact H|]. split; [exact P|]. split; [exact (C H)|].
  split; [exact D | exact O].
Defined.

(** * Further properties of the hook *)

(** ** The track and the gap stay as mounted *)

Lemma commit_slides s : slides (commit s) = slides s.
Proof.
  unfold commit, slides.
  destruct (same_deps (deps_of s) (rendered s)); [reflexivity|].
  destruct (Qeq_bool (currentTranslate s) (dep_current (rendered s)));
    unfold transformEffect, listenerEffect, listenerCleanup;
    destruct s as [? ? ? dragging ? track ? ? ? ? ? ? ? ?]; cbn;
    destruct track; cbn; destruct dragging; reflexivity.
Qed.

Lemma handle_slides s a : slides (handle s a) = slides s.
Proof. unfold slides. frame. Qed.

Lemma step_slides s a : slides (step s a) = slides s.
Proof. unfold step. now rewrite commit_slides, handle_slides. Qed.

Lemma step_gap s a : gap (step s a) = gap s.
Proof. unfold step. now rewrite commit_gap, handle_gap. Qed.

Lemma run_slides s l : slides (run s l) = slides s.
Proof.
  induction l as [|a l IH] using rev_ind; [reflexivity|].
  now rewrite run_snoc, step_slides.
Qed.

Lemma run_gap s l : gap (run s l) = gap s.
Proof.
  induction l as [|a l IH] using rev_ind; [reflexivity|].
  now rewrite run_snoc, step_gap.
Qed.

Lemma useSlider_slides p el : slides (useSlider p (Some el)) = children el.
Proof.
  unfold useSlider. rewrite commit_slides.
  unfold slides, maxTranslateEffect, listenerEffect, transformEffect.
  cbn. destruct (props_isDragging p); cbn; destruct (gt _ _); reflexivity.
Qed.

Lemma useSlider_gap p o : gap (useSlider p o) = gap_of p.
Proof.
  unfold useSlider. rewrite commit_gap.
  unfold maxTranslateEffect, listenerEffect, transformEffect.
  destruct o; cbn; destruct (props_isDragging p); cbn;
    try destruct (gt _ _); reflexivity.
Qed.

(** ** The transform shows the offset *)

Lemma handle_repaintable s a : painted s -> repaintable (handle s a).
Proof.
  intros [T R]. unfold shows_offset in T. unfold repaintable.
  destruct s as [cur prev mx drag g [el|] ? ? ? ? ? ? ren ?];
    cbn in T, R.
  - destruct T as (x & Hx & Hq).
    assert (K : x == dep_current ren) by (now rewrite R).
    destruct a as [e|e|e| |index|k]; try destruct e as [pt tg];
      unfold_handlers; break_conditions;
      try (exists x; split; [assumption | now left]);
      try (eexists; split; [reflexivity | right; reflexivity]).
  - destruct a as [e|e|e| |index|k]; try destruct e as [pt tg];
      unfold_handlers; break_conditions; exact I.
Qed.

Lemma commit_painted s : repaintable s -> painted (commit s).
Proof.
  unfold repaintable. intro H. unfold commit.
  destruct (same_deps (deps_of s) (rendered s)) eqn:E.
  - unfold same_deps in E. repeat rewrite andb_true_iff in E.
    destruct E as [[[E _] _] _]. apply Qeq_bool_iff in E.
    cbn [deps_of dep_current] in E.
    split; [|now symmetry]. unfold shows_offset.
    destruct (trackRef s); [|exact I].
    destruct H as (x & Hx & [Hq | Hq]); exists x; split; auto.
    now rewrite Hq.
  - destruct (Qeq_bool (currentTranslate s) (dep_current (rendered s)))
      eqn:C.
    + apply Qeq_bool_iff in C.
      split; [|unfold listenerEffect, listenerCleanup;
                destruct s as [? ? ? dragging ? ? ? ? ? ? ? ? ? ?];
                cbn; destruct dragging; reflexivity].
      unfold shows_offset, listenerEffect, listenerCleanup.
      destruct s as [? ? ? dragging ? track ? ? ? ? ? ? ? ?];
        cbn in *; destruct dragging; cbn; destruct track; auto;
        destruct H as (x & Hx & [Hq | Hq]); exists x; split; auto;
        now rewrite Hq.
    + split; [|unfold transformEffect, listenerEffect, listenerCleanup;
                destruct s as [? ? ? dragging ? track ? ? ? ? ? ? ? ?];
                cbn; destruct track; cbn; destruct dragging; reflexivity].
      unfold shows_offset, transformEffect, listenerEffect,
        listenerCleanup.
      destruct s as [? ? ? dragging ? track ? ? ? ? ? ? ? ?];
        cbn in *; destruct track; cbn; destruct dragging; cbn; auto;
        eexists; split; reflexivity.
Qed.

Lemma useSlider_painted p o : painted (useSlider p o).
Proof.
  unfold useSlider. apply commit_painted.
  unfold repaintable, maxTranslateEffect, listenerEffect, transformEffect.
  destruct o as [el|]; cbn; destruct (props_isDragging p); cbn;
    try destruct (gt _ _); cbn; try exact I;
    exists 0; split; try reflexivity; left; reflexivity.
Qed.

Lemma run_painted s l : painted s -> painted (run s l).
Proof.
  intro H. induction l as [|a l IH] using rev_ind; [exact H|].
  rewrite run_snoc. unfold step.
  now apply commit_painted, handle_repaintable.
Qed.

(** X1.  Whatever has happened since mount, once the last render is committed
    the inline transform of a mounted track is [translate3d(x px, 0, 0)]
    for an [x] equal to [currentTranslate]. *)
Theorem transform_follows_currentTranslate
    (p : UseSliderProps) (o : option Element) (l : list Action)
    (el : Element) :
  trackRef (run (useSlider p o) l) = Some el ->
  exists x, transform (style el) = Some x
            /\ x == currentTranslate (run (useSlider p o) l).
Proof.
  intro H.
  destruct (run_painted _ l (useSlider_painted p o)) as [T _].
  unfold shows_offset in T. now rewrite H in T.
Qed.

(** ** The transition is cleared again *)

Lemma In_drop_nth {A : Type} (x y : A) (l : list A) (k : nat) :
  In x l -> nth_error l k = Some y -> x <> y -> In x (drop_nth k l).
Proof.
  revert k. induction l as [|z l IH]; intros k Hin Hk Hne; [easy|].
  destruct k as [|k]; cbn in Hk |- *.
  - injection Hk as ->. destruct Hin as [-> | Hin]; [contradiction | easy].
  - destruct Hin as [-> | Hin]; [now left | right; eauto].
Qed.

Lemma fire_transition_settles s k :
  transition_settles s -> transition_settles (fire k s).
Proof.
  unfold transition_settles, fire. intro H.
  destruct (nth_error (timers s) k) as [t|] eqn:N; [|exact H].
  destruct s as [cur prev mx drag g [el|] ? ? ? ? ? tm ren ?];
    cbn in H, N; destruct t as [[|] d]; cbn; try exact I.
  - now left.
  - destruct H as [H | [H T]]; [now left | right]. split; [exact H|].
    apply In_drop_nth with (y := {| callback := StopDragging; delay := d |});
      [exact T | exact N | discriminate].
Qed.

Lemma handle_transition_settles s a :
  transition_settles s -> transition_settles (handle s a).
Proof.
  destruct a as [e|e|e| |index|k]; [| | | | |apply fire_transition_settles];
    unfold transition_settles; intro H;
    destruct s as [cur prev mx drag g [el|] ? ? ? ? ? tm ren ?];
    try destruct e as [pt tg]; unfold_handlers; cbn in H;
    break_conditions; try exact I; try exact H;
    right; (split; [reflexivity|]);
    unfold clear_timer;
    repeat first [ apply in_or_app; right; now left
                 | apply in_or_app; left ].
Qed.

Lemma commit_transition_settles s :
  transition_settles s -> transition_settles (commit s).
Proof.
  unfold transition_settles, commit. intro H.
  destruct (same_deps (deps_of s) (rendered s)); [exact H|].
  destruct (Qeq_bool (currentTranslate s) (dep_current (rendered s)));
    unfold transformEffect, listenerEffect, listenerCleanup;
    destruct s as [? ? ? dragging ? track ? ? ? ? ? ? ? ?]; cbn in *;
    destruct track; cbn; destruct dragging; exact H.
Qed.

Lemma useSlider_transition_settles p el :
  transition (style el) = EmptyString ->
  transition_settles (useSlider p (Some el)).
Proof.
  intro H. unfold useSlider. apply commit_transition_settles.
  unfold transition_settles, maxTranslateEffect, listenerEffect,
    transformEffect.
  cbn. destruct (props_isDragging p); cbn; destruct (gt _ _); cbn;
    now left.
Qed.

Lemma run_transition_settles s l :
  transition_settles s -> transition_settles (run s l).
Proof.
  intro H. induction l as [|a l IH] using rev_ind; [exact H|].
  rewrite run_snoc. unfold step.
  now apply commit_transition_settles, handle_transition_settles.
Qed.

(** X2.  On a track mounted without an inline transition: whatever has
    happened since, the transition is either empty or it is
    ['transform 0.3s ease-out'] with a 300ms timer pending that will
    clear it. *)
Theorem transition_is_cleared_again
    (p : UseSliderProps) (el : Element) (l : list Action) (el' : Element) :
  transition (style el) = EmptyString ->
  trackRef (run (useSlider p (Some el)) l) = Some el' ->
  transition (style el') = EmptyString
  \/ (transition (style el') = ease_out
      /\ In clear_timer (timers (run (useSlider p (Some el)) l))).
Proof.
  intros H0 H.
  pose proof (run_transition_settles _ l
                (useSlider_transition_settles p el H0)) as T.
  unfold transition_settles in T. now rewrite H in T.
Qed.

(** ** Where scroll-to-index lands *)

Lemma handleScrollToIndex_valid s index :
  0 <= index -> index < length_of (slides s) ->
  let s' := handleScrollToIndex s index in
  currentTranslate s' = scroll_target s index
  /\ prevTranslate s' = scroll_target s index
  /\ maxTranslate s' = maxTranslate s.
Proof.
  intros H0 Hn. unfold handleScrollToIndex, scroll_target, slides in *.
  destruct (trackRef s) as [el|].
  - set (n := length_of (children el)) in *.
    assert (E1 : Qeq_bool n 0 = false).
    { destruct (Qeq_bool n 0) eqn:E; [|reflexivity].
      apply Qeq_bool_iff in E. clearbody n. exfalso. lra. }
    assert (E2 : lt index 0 = false) by now apply lt_false.
    assert (E3 : ge index n = false).
    { destruct (ge index n) eqn:E; [|reflexivity]. apply ge_true in E.
      clearbody n. exfalso. lra. }
    cbn [number_lt number_ge slice_to]. rewrite E1, E2, E3.
    cbn. repeat split.
  - exfalso. change (index < 0) in Hn. lra.
Qed.

Lemma scroll_target_run s l index :
  scroll_target (run s l) index = scroll_target s index.
Proof. unfold scroll_target. now rewrite run_slides, run_gap. Qed.

(** X3.  [handleScrollToIndex] with an index in range lands on an offset that
    depends on the slides and the gap only: after any sequence of handler
    calls and timers it sets [currentTranslate] and [prevTranslate] to
    the same value as on the state before them. *)
Theorem scroll_target_ignores_history
    (s : Slider) (l : list Action) (index : Q) :
  0 <= index -> index < length_of (slides s) ->
  let s' := step (run s l) (ScrollToIndex index) in
  currentTranslate s' = currentTranslate (step s (ScrollToIndex index))
  /\ prevTranslate s' = currentTranslate s'.
Proof.
  intros H0 Hn s'. subst s'. unfold step.
  rewrite !commit_currentTranslate, commit_prevTranslate. cbn [handle].
  destruct (handleScrollToIndex_valid s index H0 Hn) as (C & _).
  assert (Hn' : index < length_of (slides (run s l)))
    by now rewrite run_slides.
  destruct (handleScrollToIndex_valid (run s l) index H0 Hn')
    as (C' & P' & _).
  rewrite C, C', P'. split; [apply scroll_target_run | reflexivity].
Qed.

Lemma Qsum_map_plus g l :
  Qsum (map (fun width => width + g) l) == Qsum l + g * length_of l.
Proof.
  unfold length_of, Qsum.
  induction l as [|w l IH]; cbn [map fold_right length].
  - change (inject_Z (Z.of_nat 0)) with 0. lra.
  - rewrite IH, Nat2Z.inj_succ. unfold Z.succ. rewrite inject_Z_plus.
    change (inject_Z 1) with 1. lra.
Qed.

Lemma Qsum_firstn_le l (i j : nat) :
  Forall (fun w => 0 <= w) l -> (i <= j)%nat ->
  0 <= Qsum (firstn i l) /\ Qsum (firstn i l) <= Qsum (firstn j l).
Proof.
  unfold Qsum. intro H. revert i j.
  induction H as [|w l Hw _ IH]; intros i j Hij.
  - rewrite !firstn_nil. cbn [fold_right]. lra.
  - destruct i as [|i], j as [|j]; try lia; cbn [firstn fold_right].
    + lra.
    + destruct (IH 0%nat j ltac:(lia)) as (_ & B).
      cbn [firstn fold_right] in B. lra.
    + destruct (IH i j ltac:(lia)) as (A & B). lra.
Qed.

Lemma scroll_target_index s (i : nat) :
  (i <= length (slides s))%nat ->
  scroll_target s (inject_Z (Z.of_nat i))
  == - (Qsum (firstn i (slides s)) + gap s * inject_Z (Z.of_nat i)).
Proof.
  intro H. unfold scroll_target.
  rewrite slice0_index, Nat2Z.id, fold_left_minus, Qsum_map_plus by lia.
  unfold length_of. rewrite length_firstn, Nat.min_l by exact H. lra.
Qed.

Lemma index_in_range {A : Type} (l : list A) (i : nat) :
  (i < length l)%nat ->
  0 <= inject_Z (Z.of_nat i) /\ inject_Z (Z.of_nat i) < length_of l.
Proof.
  intro H. unfold length_of. split.
  - change 0 with (inject_Z 0). rewrite <- Zle_Qle. lia.
  - rewrite <- Zlt_Qlt. lia.
Qed.

(** X4.  When no slide has a negative width and the gap is not negative, the
    offset [handleScrollToIndex] sets is at most 0 and does not grow
    with the index. *)
Theorem scroll_offsets_decrease (s : Slider) (i j : nat) :
  Forall (fun width => 0 <= width) (slides s) -> 0 <= gap s ->
  (i <= j < length (slides s))%nat ->
  let at_ k := currentTranslate
                 (handleScrollToIndex s (inject_Z (Z.of_nat k))) in
  at_ j <= at_ i /\ at_ i <= 0.
Proof.
  intros Hw Hg Hij at_. subst at_. cbv beta.
  destruct (index_in_range (slides s) i ltac:(lia)) as (I0 & In).
  destruct (index_in_range (slides s) j ltac:(lia)) as (J0 & Jn).
  destruct (handleScrollToIndex_valid s _ I0 In) as (-> & _).
  destruct (handleScrollToIndex_valid s _ J0 Jn) as (-> & _).
  rewrite !scroll_target_index by lia.
  destruct (Qsum_firstn_le (slides s) i j Hw ltac:(lia)) as (N1 & N2).
  assert (Z1 : 0 <= inject_Z (Z.of_nat i)) by exact I0.
  assert (Z2 : inject_Z (Z.of_nat i) <= inject_Z (Z.of_nat j)).
  { rewrite <- Zle_Qle. lia. }
  split; nra.
Qed.

(** ** Release on a track that was not measured *)

(** X7.  Without a track, or with a track that has no children, nothing is
    measured: [maxTranslate] is 0 after mount and stays 0, and every
    release leaves the offset at 0. *)
Theorem unmeasured_slider_rests_at_zero
    (p : UseSliderProps) (o : option Element) (l : list Action)
    (e : PointerEvent) :
  o = None \/ (exists el, o = Some el /\ children el = []) ->
  let s' := step (run (useSlider p o) l) (PointerUp e) in
  maxTranslate (run (useSlider p o) l) = 0
  /\ maxTranslate s' = 0 /\ currentTranslate s' == 0.
Proof.
  intros H s'.
  assert (X : maxTranslate (run (useSlider p o) l) = 0)
    by now rewrite run_maxTranslate, useSlider_unmeasured.
  assert (X' : maxTranslate s' = 0)
    by (subst s'; now rewrite step_maxTranslate).
  repeat split; try assumption.
  subst s'. unfold step. rewrite commit_currentTranslate. cbn [handle].
  destruct H as [-> | (el & -> & _)].
  - destruct (run_from_unmounted p l) as (M & C & _).
    apply mounted_false in M.
    pose proof (handle_unmounted _ (PointerUp e) M) as T.
    unfold translations in T. cbn [handle] in T.
    injection T as T1 _ _. rewrite T1, C. reflexivity.
  - set (s := run (useSlider p (Some el)) l) in *.
    assert (M : mounted s = true)
      by (subst s; now rewrite run_mounted, useSlider_mounted).
    destruct (handleMouseUpTouchEnd_mounted s e M) as (-> & _).
    unfold clamp. rewrite X.
    destruct (gt (currentTranslate s) 0) eqn:G; [reflexivity|].
    destruct (lt (currentTranslate s) 0) eqn:L; [reflexivity|].
    apply gt_false in G. apply lt_false in L. lra.
Qed.

(** ** Dragging *)

Lemma damped_monotone s t1 t2 :
  maxTranslate s <= 0 -> t1 <= t2 -> damped s t1 <= damped s t2.
Proof.
  intros Hm H. unfold damped, BOUNCE_FACTOR.
  destruct (gt t1 0) eqn:G1, (gt t2 0) eqn:G2,
           (lt t1 (maxTranslate s)) eqn:L1,
           (lt t2 (maxTranslate s)) eqn:L2;
    repeat match goal with
           | E : gt _ _ = true |- _ => apply gt_true in E
           | E : gt _ _ = false |- _ => apply gt_false in E
           | E : lt _ _ = true |- _ => apply lt_true in E
           | E : lt _ _ = false |- _ => apply lt_false in E
           end;
    lra.
Qed.

(** X8.  On a slider whose [maxTranslate] is at most 0, the offset
    rendered during a held drag follows the pointer in its direction: of
    two moves of the same gesture, the one further to the right never
    renders an offset further to the left. *)
Theorem rendered_offset_follows_pointer
    (s : Slider) (e0 : PointerEvent) (x0 : Q) (ms : list PointerEvent)
    (e1 e2 : PointerEvent) (x1 x2 : Q) :
  trackRef s <> None -> maxTranslate s <= 0 ->
  clientX_of e0 = Some x0 ->
  clientX_of e1 = Some x1 -> clientX_of e2 = Some x2 ->
  ~ x1 == x0 -> ~ x2 == x0 -> x1 <= x2 ->
  let at_ e :=
    currentTranslate
      (run s (PointerDown e0 :: map PointerMove ms ++ [PointerMove e])) in
  at_ e1 <= at_ e2.
Proof.
  intros Hm Hmax H0 H1 H2 N1 N2 Hle at_. subst at_. cbv beta.
  rewrite (held_move s e0 x0 ms e1 x1 Hm H0 H1 N1).
  rewrite (held_move s e0 x0 ms e2 x2 Hm H0 H2 N2).
  apply damped_monotone; [exact Hmax | lra].
Qed.

(** X9.  A drag that ends within the bounds settles where it ended: after
    pointer-down at [x0], any moves, a last move to [x <> x0] with
    [prevTranslate + (x - x0)] within [maxTranslate, 0], and the release,
    both [currentTranslate] and [prevTranslate] are that offset and the
    pointer-down flag is clear. *)
Theorem drag_within_bounds_settles
    (s : Slider) (e0 : PointerEvent) (x0 : Q) (ms : list PointerEvent)
    (e : PointerEvent) (x : Q) (eu : PointerEvent) :
  trackRef s <> None ->
  clientX_of e0 = Some x0 -> clientX_of e = Some x -> ~ x == x0 ->
  maxTranslate s <= prevTranslate s + (x - x0) ->
  prevTranslate s + (x - x0) <= 0 ->
  let s' := run s (gesture e0 (ms ++ [e]) eu) in
  currentTranslate s' = prevTranslate s + (x - x0)
  /\ prevTranslate s' = prevTranslate s + (x - x0)
  /\ isMouseDownRef s' = false.
Proof.
  intros Hm H0 Hx Hne Hlo Hhi s'. subst s'. unfold gesture.
  rewrite map_app. cbn [map]. rewrite app_comm_cons, run_snoc.
  set (s1 := run s (PointerDown e0
                    :: map PointerMove ms ++ [PointerMove e])).
  assert (C : currentTranslate s1 = prevTranslate s + (x - x0)).
  { subst s1.
    rewrite (held_move s e0 x0 ms e x Hm H0 Hx Hne). unfold damped.
    apply gt_false in Hhi. apply lt_false in Hlo. now rewrite Hhi, Hlo. }
  assert (X : maxTranslate s1 = maxTranslate s)
    by (subst s1; apply run_maxTranslate).
  assert (M : mounted s1 = true).
  { subst s1. rewrite run_mounted. now apply mounted_true. }
  unfold step. rewrite commit_currentTranslate, commit_prevTranslate,
    commit_isMouseDownRef. cbn [handle].
  destruct (handleMouseUpTouchEnd_mounted s1 eu M) as (-> & -> & _).
  unfold clamp. rewrite X, C.
  apply gt_false in Hhi. apply lt_false in Hlo. rewrite Hhi, Hlo.
  repeat split. frame.
Qed.

(** X10.  After a release the next drag starts from the offset as it was when
    the pointer was released, not from the clamped one: the first
    rendered offset of the next gesture is [translate]'s damping of that
    offset plus the displacement. *)
Theorem next_drag_starts_from_release_offset
    (s : Slider) (eu e0 : PointerEvent) (x0 : Q) (ms : list PointerEvent)
    (e : PointerEvent) (x : Q) :
  trackRef s <> None ->
  clientX_of e0 = Some x0 -> clientX_of e = Some x -> ~ x == x0 ->
  currentTranslate
    (run (step s (PointerUp eu))
         (PointerDown e0 :: map PointerMove ms ++ [PointerMove e]))
  = damped s (currentTranslate s + (x - x0)).
Proof.
  intros Hm H0 Hx Hne.
  assert (M : mounted s = true) by now apply mounted_true.
  assert (M1 : trackRef (step s (PointerUp eu)) <> None).
  { apply mounted_true. now rewrite step_mounted. }
  rewrite (held_move _ e0 x0 ms e x M1 H0 Hx Hne).
  unfold damped, step.
  rewrite commit_prevTranslate, commit_maxTranslate. cbn [handle].
  now destruct (handleMouseUpTouchEnd_mounted s eu M) as (_ & -> & ->).
Qed.

Lemma step_move_not_held s e :
  isMouseDownRef s = false ->
  let s' := step s (PointerMove e) in
  translations s' = translations s
  /\ isDragging s' = isDragging s
  /\ isMouseDownRef s' = false.
Proof.
  intros H s'. subst s'. unfold step.
  rewrite commit_translations, commit_isDragging, commit_isMouseDownRef.
  cbn [handle]. unfold handleMouseMoveTouchMove, calculateDiff.
  destruct (trackRef s); [|auto].
  destruct (clientX_of e); [|auto].
  cbn [isMouseDownRef set_diffRef]. rewrite H. cbn. auto.
Qed.

(** X11.  Moves that follow a release without a new pointer-down change
    neither the three translations nor the dragging flag. *)
Theorem moves_after_release_are_inert
    (s : Slider) (eu : PointerEvent) (ms : list PointerEvent) :
  let s1 := step s (PointerUp eu) in
  let s' := run s1 (map PointerMove ms) in
  translations s' = translations s1
  /\ isDragging s' = isDragging s1
  /\ isMouseDownRef s' = false.
Proof.
  intros s1 s'. subst s'.
  assert (H : isMouseDownRef s1 = false).
  { subst s1. unfold step. rewrite commit_isMouseDownRef. frame. }
  clearbody s1. revert s1 H.
  induction ms as [|m ms IH]; intros s1 H; [cbn; auto|].
  cbn [map]. rewrite run_cons.
  destruct (step_move_not_held s1 m H) as (T & D & F).
  destruct (IH _ F) as (T' & D' & F').
  repeat split; congruence.
Qed.

(** X12.  The two handlers that read the pointer's X throw exactly on a touch
    event without touches: pointer-down after it has set the pointer-down
    flag, the move handler only when the track is mounted and before it
    has changed anything. *)
Theorem handlers_throw_on_empty_touches (s : Slider) (e : PointerEvent) :
  (handleMouseDownTouchStart s e = Threw (set_isMouseDownRef true s)
   <-> pointer e = TouchPointer [])
  /\ ((exists s', handleMouseDownTouchStart s e = Threw s')
      <-> pointer e = TouchPointer [])
  /\ (handleMouseMoveTouchMove s e = Threw s
      <-> trackRef s <> None /\ pointer e = TouchPointer [])
  /\ ((exists s', handleMouseMoveTouchMove s e = Threw s')
      <-> trackRef s <> None /\ pointer e = TouchPointer []).
Proof.
  unfold handleMouseDownTouchStart, handleMouseMoveTouchMove,
    calculateDiff, clientX_of.
  destruct (trackRef s) as [el|], (pointer e) as [x|[|x ts]];
    repeat split; intros;
    repeat match goal with
           | H : exists _, _ |- _ => destruct H
           | H : _ /\ _ |- _ => destruct H
           | H : (if ?c then _ else _) = _ |- _ => destruct c
           end;
    try discriminate; try congruence; try (eexists; reflexivity).
Qed.

Lemma handle_isDragging_other s a :
  (forall e, a <> PointerMove e) ->
  isDragging (handle s a) = isDragging s \/ isDragging (handle s a) = false.
Proof.
  intro H. destruct a as [e|e|e| |index|k];
    try (exfalso; now apply (H e));
    clear H; frame; auto.
Qed.

(** X13.  The dragging flag is set by nothing but a move while a pointer is
    down on a mounted track to an X other than the recorded start. *)
Theorem dragging_starts_with_a_held_move (s : Slider) (a : Action) :
  isDragging s = false -> isDragging (step s a) = true ->
  exists e x,
    a = PointerMove e /\ trackRef s <> None /\ isMouseDownRef s = true
    /\ clientX_of e = Some x /\ ~ x == startPosRef s.
Proof.
  unfold step. rewrite commit_isDragging. intros H0 H1.
  assert (M : exists e, a = PointerMove e).
  { destruct a as [e|e|e| |index|k]; try (now exists e); exfalso;
      (edestruct (handle_isDragging_other s) as [E | E];
       [|rewrite E in H1; congruence | rewrite E in H1; congruence]);
      discriminate. }
  destruct M as (e & ->). exists e. cbn [handle] in H1.
  unfold handleMouseMoveTouchMove, calculateDiff in H1.
  destruct (trackRef s) eqn:T; [|cbn in H1; congruence].
  destruct (clientX_of e) as [x|] eqn:X; [|cbn in H1; congruence].
  exists x. cbn [isMouseDownRef diffRef set_diffRef] in H1.
  destruct (isMouseDownRef s) eqn:D; [|cbn in H1; congruence].
  destruct (strict_neq (x - startPosRef s) 0) eqn:N;
    [|cbn in H1; congruence].
  apply strict_neq_true in N.
  repeat split; try congruence. intro E. apply N. lra.
Qed.

(** ** Release outside the track *)

Lemma commit_timers s : timers (commit s) = timers s.
Proof. unfold_commit. Qed.

Lemma nth_error_last_of_two {A : Type} (l : list A) (x y : A) :
  nth_error (l ++ [x; y]) (S (length l)) = Some y.
Proof. induction l as [|z l IH]; [reflexivity | exact IH]. Qed.

Lemma handleMouseUpTouchEnd_elsewhere s e :
  trackRef s <> None ->
  in_track (target e) = false ->
  in_multi_modal_bg (target e) = false ->
  in_multi_modal_inner_bg (target e) = false ->
  timers (handleMouseUpTouchEnd s e)
  = timers s ++ [clear_timer; {| callback := StopDragging; delay := 0 |}]
  /\ isDragging (handleMouseUpTouchEnd s e) = isDragging s.
Proof.
  intros Hm H1 H2 H3. unfold handleMouseUpTouchEnd.
  destruct s as [cur prev mx drag g [el|] ? ? ? ? ? tm ren ?];
    [|now contradiction Hm].
  destruct e as [pt [k t b1 b2]]. cbn in H1, H2, H3. subst t b1 b2.
  unfold setTimeout, clear_timer.
  break_conditions; rewrite <- app_assoc; split; reflexivity.
Qed.

Lemma handleMouseUpTouchEnd_backdrop s e :
  trackRef s <> None ->
  in_track (target e) = false ->
  in_multi_modal_bg (target e) || in_multi_modal_inner_bg (target e) = true ->
  timers (handleMouseUpTouchEnd s e) = timers s ++ [clear_timer]
  /\ isDragging (handleMouseUpTouchEnd s e) = isDragging s.
Proof.
  intros Hm H1 H2. unfold handleMouseUpTouchEnd.
  destruct s as [cur prev mx drag g [el|] ? ? ? ? ? tm ren ?];
    [|now contradiction Hm].
  destruct e as [pt [k t b1 b2]]. cbn in H1, H2. subst t.
  unfold setTimeout, clear_timer.
  destruct b1, b2; try discriminate; break_conditions; split; reflexivity.
Qed.

Lemma Forall_drop_nth {A : Type} (P : A -> Prop) (l : list A) (k : nat) :
  Forall P l -> Forall P (drop_nth k l).
Proof.
  intro H. revert k. induction H as [|x l Hx Hl IH]; intro k.
  - destruct k; constructor.
  - destruct k as [|k]; cbn; [assumption | now constructor].
Qed.

Lemma step_timer_no_stop s k :
  no_stop_pending s ->
  no_stop_pending (step s (TimerFires k))
  /\ isDragging (step s (TimerFires k)) = isDragging s.
Proof.
  unfold no_stop_pending, step. intro H.
  rewrite commit_timers, commit_isDragging. cbn [handle]. unfold fire.
  destruct (nth_error (timers s) k) as [t|] eqn:N; [|auto].
  assert (C : callback t = ClearTransition).
  { apply nth_error_In in N.
    exact (proj1 (Forall_forall _ _) H t N). }
  rewrite C. cbn [run_callback].
  destruct s as [? ? ? ? ? [el|] ? ? ? ? ? tm ? ?]; cbn in *;
    split; try reflexivity; now apply Forall_drop_nth.
Qed.

Lemma run_timers_no_stop s ks :
  no_stop_pending s ->
  isDragging (run s (map TimerFires ks)) = isDragging s.
Proof.
  revert s. induction ks as [|k ks IH]; intros s H; [reflexivity|].
  cbn [map]. rewrite run_cons.
  destruct (step_timer_no_stop s k H) as (H' & D).
  now rewrite (IH _ H').
Qed.

(** C5 (amended).  After any sequence of handler calls and timers since
    mount, once the render they cause is committed: the window has the
    four listeners if the dragging flag is set and none if it is clear.
    A release whose target is inside the mounted track clears the flag
    and removes them.  A release whose target is outside the track leaves
    the flag and the listeners as they were: when the target is inside
    [#multi-modal-bg] or [#multi-modal-inner-bg] it queues the
    transition timer only, so that, with the flag set and no zero-delay
    timer pending from before, the flag stays set and the listeners stay
    attached whichever timers fire; otherwise it also queues the
    zero-delay timer, and once that has fired the flag is clear and the
    listeners are gone.  Unmounting removes them. *)
Theorem listeners_follow_dragging
    (p : UseSliderProps) (o : option Element) (l : list Action)
    (e : PointerEvent) (ks : list nat) :
  let s := run (useSlider p o) l in
  let s' := step s (PointerUp e) in
  windowListeners s = (if isDragging s then dragListeners else [])
  /\ (trackRef s <> None -> in_track (target e) = true ->
      isDragging s' = false /\ windowListeners s' = [])
  /\ (in_track (target e) = false ->
      isDragging s' = isDragging s
      /\ windowListeners s' = windowListeners s)
  /\ (trackRef s <> None -> in_track (target e) = false ->
      in_multi_modal_bg (target e) || in_multi_modal_inner_bg (target e)
      = true ->
      timers s' = timers s ++ [clear_timer]
      /\ (isDragging s = true -> no_stop_pending s ->
          let s'' := run s' (map TimerFires ks) in
          isDragging s'' = true /\ windowListeners s'' = dragListeners))
  /\ (trackRef s <> None -> in_track (target e) = false ->
      in_multi_modal_bg (target e) = false ->
      in_multi_modal_inner_bg (target e) = false ->
      timers s' = timers s ++ [clear_timer; stop_timer]
      /\ let s'' := step s' (TimerFires (S (length (timers s)))) in
         isDragging s'' = false /\ windowListeners s'' = [])
  /\ windowListeners (unmount s) = [].
Proof.
  intros s s'.
  assert (L : listening s) by apply run_listening, useSlider_listening.
  assert (L' : listening s') by now apply step_listening.
  destruct (step_up_dragging s e) as (In & Out). fold s' in In, Out.
  pose proof (listening_window s L) as W.
  pose proof (listening_window s' L') as W'.
  unfold listenersFor in W, W'.
  split; [exact W|]. split; [|split; [|split; [|split]]].
  - intros Hm Ht. rewrite W', (In Hm Ht). auto.
  - intro Ht. rewrite W', W, (Out Ht). auto.
  - intros Hm Ht Hb.
    destruct (handleMouseUpTouchEnd_backdrop s e Hm Ht Hb) as (T & _).
    assert (T' : timers s' = timers s ++ [clear_timer]).
    { subst s'. unfold step. now rewrite commit_timers. }
    split; [exact T'|]. intros Hd Hn s''.
    assert (N' : no_stop_pending s').
    { unfold no_stop_pending. rewrite T'. apply Forall_app. split; [exact Hn|].
      repeat constructor. }
    assert (D : isDragging s'' = true).
    { subst s''. rewrite (run_timers_no_stop s' ks N'), (Out Ht). exact Hd. }
    split; [exact D|].
    assert (L'' : listening s'') by (subst s''; now apply run_listening).
    rewrite (listening_window s'' L''), D. reflexivity.
  - intros Hm Ht H2 H3.
    destruct (handleMouseUpTouchEnd_elsewhere s e Hm Ht H2 H3) as (T & _).
    assert (T' : timers s' = timers s ++ [clear_timer; stop_timer]).
    { subst s'. unfold step. now rewrite commit_timers. }
    split; [exact T'|]. intro s''.
    assert (D : isDragging s'' = false).
    { subst s''. unfold step. rewrite commit_isDragging. cbn [handle].
      unfold fire. rewrite T', nth_error_last_of_two. reflexivity. }
    split; [exact D|].
    assert (L'' : listening s'') by (subst s''; now apply step_listening).
    rewrite (listening_window s'' L''), D. reflexivity.
  - unfold unmount, listenerCleanup.
    cbn [windowListeners set_trackRef set_windowListeners]. rewrite W.
    now destruct (isDragging s).
Qed.

(** X14.  A release outside the track and outside the multi-modal backdrops
    does not end the drag itself: it leaves the dragging flag as it was
    and starts, after the 300ms timer, a zero-delay timer; when that one
    fires the flag is clear and the window listeners are gone. *)
Theorem deferred_release_ends_drag
    (p : UseSliderProps) (o : option Element) (l : list Action)
    (e : PointerEvent) :
  let s := run (useSlider p o) l in
  trackRef s <> None ->
  in_track (target e) = false ->
  in_multi_modal_bg (target e) = false ->
  in_multi_modal_inner_bg (target e) = false ->
  let s1 := step s (PointerUp e) in
  let s2 := step s1 (TimerFires (S (length (timers s)))) in
  timers s1
  = timers s ++ [clear_timer; {| callback := StopDragging; delay := 0 |}]
  /\ isDragging s1 = isDragging s
  /\ isDragging s2 = false
  /\ windowListeners s2 = [].
Proof.
  intros s Hm H1 H2 H3 s1 s2.
  destruct (handleMouseUpTouchEnd_elsewhere s e Hm H1 H2 H3) as (T & D).
  assert (T1 : timers s1 = timers s
               ++ [clear_timer; {| callback := StopDragging; delay := 0 |}]).
  { subst s1. unfold step. now rewrite commit_timers. }
  assert (D1 : isDragging s1 = isDragging s).
  { subst s1. unfold step. now rewrite commit_isDragging. }
  assert (D2 : isDragging s2 = false).
  { subst s2. unfold step. rewrite commit_isDragging. cbn [handle].
    unfold fire. rewrite T1, nth_error_last_of_two. reflexivity. }
  assert (L : listening s2).
  { subst s2 s1 s. do 2 apply step_listening.
    apply run_listening, useSlider_listening. }
  destruct L as [W _]. rewrite D2 in W. auto.
Qed.

(** * Properties of [CloseIcon] *)

Lemma get_app key o1 o2 :
  get key (o1 ++ o2)
  = match get key o2 with Some v => Some v | None => get key o1 end.
Proof.
  induction o1 as [|[k v] o1 IH]; cbn [app get].
  - now destruct (get key o2).
  - rewrite IH. destruct (get key o2); [reflexivity|].
    reflexivity.
Qed.

Lemma get_omit key keys o :
  get key (omit keys o)
  = if existsb (String.eqb key) keys then None else get key o.
Proof.
  unfold omit. induction o as [|[k v] o IH]; cbn [filter get fst].
  - now destruct (existsb _ keys).
  - destruct (existsb (String.eqb k) keys) eqn:E; cbn [negb get].
    + rewrite IH. destruct (existsb (String.eqb key) keys) eqn:K;
        [reflexivity|].
      destruct (get key o); [reflexivity|].
      destruct (String.eqb key k) eqn:Q; [|reflexivity].
      apply String.eqb_eq in Q. subst k. congruence.
    + rewrite IH. destruct (existsb (String.eqb key) keys) eqn:K;
        [|reflexivity].
      destruct (String.eqb key k) eqn:Q; [|reflexivity].
      apply String.eqb_eq in Q. subst k. congruence.
Qed.

(** X15.  [CloseIcon] hands every prop other than [className], [color]
    and [children] (and React's reserved [key] and [ref], of which
    nothing is said) to the svg unchanged, also where it overrides an
    attribute the component writes itself; [className] arrives as given;
    [color] never arrives as an attribute, and neither does a [children]
    prop: the svg's children are the two lines whatever the props. *)
Theorem CloseIcon_passes_props_through (props : PropsObject) (key : string) :
  let attributes := attributes_of (CloseIcon props) in
  get "color" attributes = None
  /\ get "children" attributes = None
  /\ length (kids_of (CloseIcon props)) = 2%nat
  /\ get "className" attributes = get "className" props
  /\ (key <> "className"%string -> key <> "color"%string ->
      key <> "children"%string ->
      key <> "key"%string -> key <> "ref"%string ->
      forall v, get key props = Some v -> get key attributes = Some v).
Proof.
  cbv zeta. unfold CloseIcon, jsx_with_children, attributes_of, kids_of.
  repeat split.
  - rewrite get_omit, !get_app, get_omit. cbn [existsb String.eqb].
    destruct (get "className" props); reflexivity.
  - rewrite get_omit. reflexivity.
  - rewrite get_omit, !get_app, get_omit. cbn [existsb].
    destruct (get "className" props); reflexivity.
  - intros H1 H2 H3 _ _ v Hv.
    rewrite get_omit, !get_app, get_omit. cbn [existsb].
    apply String.eqb_neq in H1, H2, H3. rewrite H1, H2, H3. cbn [orb].
    now rewrite Hv.
Qed.

(** X16.  Unless the props carry a [stroke] of their own, the svg's stroke is
    the [color] prop, and ['currentColor'] when [color] is undefined. *)
Theorem CloseIcon_stroke_is_color (props : PropsObject) :
  get "stroke" props = None ->
  get "stroke" (attributes_of (CloseIcon props))
  = Some match get "color" props with
         | Some v => v
         | None => Text "currentColor"
         end.
Proof.
  intro H. unfold CloseIcon, jsx_with_children, attributes_of.
  rewrite get_omit, !get_app, get_omit. cbn [existsb]. rewrite H.
  change (String.eqb "stroke" "className") with false.
  change (String.eqb "stroke" "color") with false.
  change (String.eqb "stroke" "children") with false. cbn [orb].
  destruct (get "className" props); reflexivity.
Qed.

(** * The further properties on concrete inputs *)

Lemma transform_follows_currentTranslate_witness :
  let s := run wide [PointerDown (mouse 0 on_track);
                     PointerMove (mouse 100 on_track)] in
  match trackRef s with
  | Some el => exists x, transform (style el) = Some x
                         /\ x == currentTranslate s
  | None => False
  end.
Proof.
  intro s.
  destruct (trackRef s) as [el|] eqn:E.
  - exact (transform_follows_currentTranslate default_props
             (Some (track [500] 300))
             [PointerDown (mouse 0 on_track);
              PointerMove (mouse 100 on_track)] el E).
  - vm_compute in E. discriminate.
Defined.

Lemma transition_is_cleared_again_witness :
  let s := run wide [ScrollToIndex 0] in
  match trackRef s with
  | Some el => transition (style el) = EmptyString
               \/ (transition (style el) = ease_out
                   /\ In clear_timer (timers s))
  | None => False
  end.
Proof.
  intro s.
  destruct (trackRef s) as [el|] eqn:E.
  - exact (transition_is_cleared_again default_props (track [500] 300)
             [ScrollToIndex 0] el eq_refl E).
  - vm_compute in E. discriminate.
Defined.

Lemma scroll_target_ignores_history_witness :
  let l := [PointerDown (mouse 0 on_track);
            PointerMove (mouse 100 on_track);
            PointerUp (mouse 100 on_track)] in
  let s' := step (run three l) (ScrollToIndex 2) in
  currentTranslate s' = currentTranslate (step three (ScrollToIndex 2))
  /\ prevTranslate s' = currentTranslate s'.
Proof.
  intro l.
  apply (scroll_target_ignores_history three l 2); decide_Q.
Defined.

Lemma scroll_offsets_decrease_witness :
  currentTranslate (handleScrollToIndex three (inject_Z (Z.of_nat 2)))
  <= currentTranslate (handleScrollToIndex three (inject_Z (Z.of_nat 1)))
  /\ currentTranslate (handleScrollToIndex three (inject_Z (Z.of_nat 1)))
     <= 0.
Proof.
  assert (E : slides three = [200; 200; 200]) by (vm_compute; reflexivity).
  apply (scroll_offsets_decrease three 1 2).
  - rewrite E. repeat constructor; decide_Q.
  - decide_Q.
  - rewrite E. cbn [length]. lia.
Defined.

Lemma unmeasured_slider_rests_at_zero_witness :
  let s := run (useSlider default_props (Some (track [] 300)))
               [ScrollToIndex 0; PointerDown (mouse 0 on_track);
                PointerMove (mouse 100 on_track)] in
  let s' := step s (PointerUp (mouse 100 on_track)) in
  maxTranslate s = 0 /\ maxTranslate s' = 0 /\ currentTranslate s' == 0.
Proof.
  apply (unmeasured_slider_rests_at_zero default_props
           (Some (track [] 300))
           [ScrollToIndex 0; PointerDown (mouse 0 on_track);
            PointerMove (mouse 100 on_track)]
           (mouse 100 on_track)).
  right. exists (track [] 300). split; reflexivity.
Defined.

Lemma rendered_offset_follows_pointer_witness :
  let at_ e :=
    currentTranslate
      (run wide (PointerDown (mouse 100 on_track)
                 :: map PointerMove [mouse 90 on_track]
                 ++ [PointerMove e])) in
  at_ (mouse 50 on_track) <= at_ (mouse 200 on_track).
Proof.
  assert (Hm : trackRef wide <> None) by (vm_compute; discriminate).
  apply (rendered_offset_follows_pointer wide (mouse 100 on_track) 100
           [mouse 90 on_track] (mouse 50 on_track) (mouse 200 on_track)
           50 200 Hm); try reflexivity; decide_Q.
Defined.

Lemma drag_within_bounds_settles_witness :
  let s' := run wide (gesture (mouse 100 on_track)
                              ([mouse 90 on_track] ++ [mouse 50 on_track])
                              (mouse 50 on_track)) in
  currentTranslate s' = prevTranslate wide + (50 - 100)
  /\ prevTranslate s' = prevTranslate wide + (50 - 100)
  /\ isMouseDownRef s' = false.
Proof.
  assert (Hm : trackRef wide <> None) by (vm_compute; discriminate).
  apply (drag_within_bounds_settles wide (mouse 100 on_track) 100
           [mouse 90 on_track] (mouse 50 on_track) 50 (mouse 50 on_track)
           Hm eq_refl eq_refl); decide_Q.
Defined.

Lemma next_drag_starts_from_release_offset_witness :
  let s := run wide [PointerDown (mouse 0 on_track);
                     PointerMove (mouse 100 on_track)] in
  currentTranslate
    (run (step s (PointerUp (mouse 100 on_track)))
         (PointerDown (mouse 0 on_track)
          :: map PointerMove [] ++ [PointerMove (mouse 10 on_track)]))
  = damped s (currentTranslate s + (10 - 0)).
Proof.
  intro s.
  assert (Hm : trackRef s <> None) by (vm_compute; discriminate).
  apply (next_drag_starts_from_release_offset s (mouse 100 on_track)
           (mouse 0 on_track) 0 [] (mouse 10 on_track) 10 Hm
           eq_refl eq_refl).
  decide_Q.
Defined.

Lemma dragging_starts_with_a_held_move_witness :
  let s := step wide (PointerDown (mouse 100 on_track)) in
  exists e x,
    PointerMove (mouse 50 on_track) = PointerMove e
    /\ trackRef s <> None /\ isMouseDownRef s = true
    /\ clientX_of e = Some x /\ ~ x == startPosRef s.
Proof.
  intro s.
  apply (dragging_starts_with_a_held_move s
           (PointerMove (mouse 50 on_track)));
    vm_compute; reflexivity.
Defined.

Lemma deferred_release_ends_drag_witness :
  let s := run wide [PointerDown (mouse 100 on_track);
                     PointerMove (mouse 50 on_track)] in
  let s1 := step s (PointerUp (mouse 50 elsewhere)) in
  let s2 := step s1 (TimerFires (S (length (timers s)))) in
  timers s1
  = timers s ++ [clear_timer; {| callback := StopDragging; delay := 0 |}]
  /\ isDragging s1 = isDragging s
  /\ isDragging s2 = false
  /\ windowListeners s2 = [].
Proof.
  apply (deferred_release_ends_drag default_props (Some (track [500] 300))
           [PointerDown (mouse 100 on_track);
            PointerMove (mouse 50 on_track)]
           (mouse 50 elsewhere)); try reflexivity.
  vm_compute. discriminate.
Defined.

Lemma CloseIcon_passes_props_through_witness :
  let props := [("className"%string, Text "icon");
                ("color"%string, Text "red");
                ("children"%string, Text "x");
                ("width"%string, Text "32");
                ("onClick"%string, Opaque 0)] in
  get "width" (attributes_of (CloseIcon props)) = Some (Text "32")
  /\ get "onClick" (attributes_of (CloseIcon props)) = Some (Opaque 0)
  /\ get "children" (attributes_of (CloseIcon props)) = None.
Proof.
  intro props.
  destruct (CloseIcon_passes_props_through props "width")
    as (_ & K & _ & _ & W).
  destruct (CloseIcon_passes_props_through props "onClick")
    as (_ & _ & _ & _ & C).
  split; [|split].
  - apply W; (discriminate || reflexivity).
  - apply C; (discriminate || reflexivity).
  - exact K.
Defined.

Lemma CloseIcon_stroke_is_color_witness :
  get "stroke" (attributes_of (CloseIcon [("color"%string, Text "red")]))
  = Some (Text "red")
  /\ get "stroke" (attributes_of (CloseIcon []))
     = Some (Text "currentColor").
Proof.
  split.
  - exact (CloseIcon_stroke_is_color [("color"%string, Text "red")]
             eq_refl).
  - exact (CloseIcon_stroke_is_color [] eq_refl).
Defined.

Lemma listeners_follow_dragging_witness :
  let s := run wide [PointerDown (mouse 100 on_track);
                     PointerMove (mouse 50 on_track)] in
  windowListeners s = dragListeners
  /\ windowListeners (step s (PointerUp (mouse 50 on_track))) = []
  /\ windowListeners (step s (PointerUp (mouse 50 elsewhere)))
     = windowListeners s
  /\ windowListeners
       (run (step s (PointerUp (mouse 50 on_backdrop)))
            (map TimerFires [0%nat; 0%nat]))
     = dragListeners
  /\ windowListeners
       (step (step s (PointerUp (mouse 50 elsewhere)))
             (TimerFires (S (length (timers s)))))
     = []
  /\ windowListeners (unmount s) = [].
Proof.
  intro s.
  pose (l := [PointerDown (mouse 100 on_track);
              PointerMove (mouse 50 on_track)]).
  destruct (listeners_follow_dragging default_props
              (Some (track [500] 300)) l (mouse 50 on_track) [])
    as (W & In & _ & _ & _ & U).
  destruct (listeners_follow_dragging default_props
              (Some (track [500] 300)) l (mouse 50 elsewhere) [])
    as (_ & _ & Out & _ & Stop & _).
  destruct (listeners_follow_dragging default_props
              (Some (track [500] 300)) l (mouse 50 on_backdrop)
              [0%nat; 0%nat])
    as (_ & _ & _ & Keep & _).
  fold wide in W, In, Out, Keep, Stop, U.
  change (run wide l) with s in W, In, Out, Keep, Stop, U.
  assert (D : isDragging s = true) by (vm_compute; reflexivity).
  assert (M : trackRef s <> None) by (vm_compute; discriminate).
  assert (N : no_stop_pending s) by (vm_compute; constructor).
  rewrite D in W.
  split; [exact W|]. split; [|split; [|split; [|split]]].
  - apply (In M). reflexivity.
  - apply Out. reflexivity.
  - apply (Keep M eq_refl eq_refl); assumption.
  - apply (Stop M eq_refl eq_refl eq_refl).
  - exact U.
Defined.

Lemma handleScrollToIndex_NaN_resets_witness :
  let s := run three [ScrollToIndex 1] in
  let s' := handleScrollToIndex s NaN in
  currentTranslate s == -216
  /\ currentTranslate s' = 0
  /\ prevTranslate s' = 0
  /\ timers s' = timers s ++ [clear_timer]
  /\ s' <> s.
Proof.
  intros s s'.
  pose (el := match trackRef s with Some el => el | None => track [] 0 end).
  assert (Hel : trackRef s = Some el) by (vm_compute; reflexivity).
  assert (Hne : children el <> []) by (vm_compute; discriminate).
  destruct (handleScrollToIndex_NaN_resets s el Hel Hne)
    as (C & P & _ & T & N).
  split; [vm_compute; reflexivity|]. repeat split; assumption.
Defined.

Lemma handleScrollToIndex_NaN_moves_witness :
  let s := run three [ScrollToIndex 1] in
  ~ currentTranslate s == 0
  /\ translations (handleScrollToIndex s NaN) = (0, 0, maxTranslate s)
  /\ translations (handleScrollToIndex s NaN) <> translations s.
Proof.
  intro s.
  pose (el := match trackRef s with Some el => el | None => track [] 0 end).
  assert (Hel : trackRef s = Some el) by (vm_compute; reflexivity).
  assert (Hne : children el <> []) by (vm_compute; discriminate).
  assert (Hoff : ~ currentTranslate s == 0).
  { intro H. vm_compute in H. discriminate. }
  destruct (handleScrollToIndex_NaN_moves s el Hel Hne Hoff)
    as (T & _ & N).
  split; [exact Hoff|]. split; assumption.
Defined.
